(** * spotify_fetcher: the [/search] endpoint of [server.py]

    A shallow embedding of the one request handler of the service, [search],
    together with the request validation that the framework derives from its
    signature, and the properties of the handler that the specification
    states.

    Layout: Python values as the JSON decoder produces them; exceptions; the
    effects of the handler (log lines and provider calls) as a small state
    and error monad; the handler itself, statement by statement; the
    endpoint; then the theorems. *)

From Stdlib Require Import ZArith Ascii Floats.PrimFloat DecimalString.
From stdpp Require Import gmap strings list fin_maps.

#[local] Set Warnings "-register-all".
#[local] Open Scope Z_scope.

(** ** Python values

    What [sp.search] hands back is whatever [json.loads] built: [None],
    booleans, integers, floats, strings, lists and dictionaries with string
    keys.  A Python [str] is modelled by its UTF-8 bytes; the only characters
    the handler looks at are ASCII, and no byte of a multi-byte sequence is
    an ASCII byte. *)

Inductive PyVal : Type :=
  | PNone
  | PBool (b : bool)
  | PInt (n : Z)
  | PFloat (f : float)
  | PStr (s : string)
  | PList (l : list PyVal)
  | PDict (d : gmap string PyVal).

(** [bool(v)], as used by [if not v]. *)
Definition truthy (v : PyVal) : bool :=
  match v with
  | PNone => false
  | PBool b => b
  | PInt n => negb (n =? 0)
  | PFloat f => negb (PrimFloat.eqb f PrimFloat.zero)
  | PStr s => negb (bool_decide (s = ""))
  | PList l => negb (bool_decide (l = []))
  | PDict d => negb (bool_decide (d = ∅))
  end.

(** ** Exceptions

    The classes that can reach the handler's [except Exception] clause: what
    the transport raises, what the handler's own statements raise, and the
    two interpreter signals that derive from [BaseException] only, and what
    formatting a message can raise.  The [detail] of a transport exception
    and the [text] of [ValidationError] are the text that [str(e)] gives. *)

Inductive exn : Type :=
  | ConnectionError (detail : string)
  | ReadTimeout (detail : string)
  | SpotifyException (http_status : Z) (detail : string)
  | SpotifyOauthError (detail : string)
  | JSONDecodeError (detail : string)
  | TypeError
  | AttributeError
  | KeyError (key : string)
  | ValidationError (text : string)
  | IndexError
  | ValueError (detail : string)
  | KeyboardInterrupt
  | SystemExit.

(** [isinstance(e, Exception)]. *)
Definition isinstance_Exception (e : exn) : bool :=
  match e with
  | KeyboardInterrupt | SystemExit => false
  | _ => true
  end.

Inductive Result (A : Type) : Type :=
  | Ok (a : A)
  | Raise (e : exn).
Arguments Ok {A} a.
Arguments Raise {A} e.

(** ** Operations on Python values used by the handler *)

(** [x in s] for two strings: [x] occurs in [s] as a substring. *)
Fixpoint str_contains (x s : string) : bool :=
  String.prefix x s ||
  match s with
  | EmptyString => false
  | String _ s' => str_contains x s'
  end.

(** [PStr x == v]: a string equals only an equal string. *)
Definition str_eq_val (x : string) (v : PyVal) : bool :=
  match v with
  | PStr s => bool_decide (x = s)
  | _ => false
  end.

(** [x in c] with [x] a string. *)
Definition py_contains (x : string) (c : PyVal) : Result bool :=
  match c with
  | PDict d => Ok (bool_decide (is_Some (d !! x)))
  | PList l => Ok (existsb (str_eq_val x) l)
  | PStr s => Ok (str_contains x s)
  | PNone | PBool _ | PInt _ | PFloat _ => Raise TypeError
  end.

(** [c[k]] with [k] a string. *)
Definition py_getitem (c : PyVal) (k : string) : Result PyVal :=
  match c with
  | PDict d =>
      match d !! k with
      | Some v => Ok v
      | None => Raise (KeyError k)
      end
  | _ => Raise TypeError
  end.

(** [c.get(k, dflt)]: only dictionaries have the method. *)
Definition py_get (c : PyVal) (k : string) (dflt : PyVal) : Result PyVal :=
  match c with
  | PDict d => Ok (default dflt (d !! k))
  | _ => Raise AttributeError
  end.

(** The elements [for item in c] visits.  A dictionary yields its keys and a
    string its characters, each as a string. *)
Definition py_iter (c : PyVal) : Result (list PyVal) :=
  match c with
  | PList l => Ok l
  | PDict d => Ok (PStr <$> (map_to_list d).*1)
  | PStr s => Ok ((fun a => PStr (String a EmptyString)) <$> String.list_ascii_of_string s)
  | PNone | PBool _ | PInt _ | PFloat _ => Raise TypeError
  end.

(** [isinstance(v, dict)]. *)
Definition isinstance_dict (v : PyVal) : bool :=
  match v with
  | PDict _ => true
  | _ => false
  end.

(** [s.replace(old, new)]: every non-overlapping occurrence of [old], found
    left to right, becomes [new].  [skip] counts the characters of a matched
    occurrence that are still to be dropped. *)
Fixpoint replace_from (old new : string) (skip : nat) (s : string) : string :=
  match s with
  | EmptyString => EmptyString
  | String a s' =>
      match skip with
      | S k => replace_from old new k s'
      | O =>
          if String.prefix old s
          then new +:+ replace_from old new (String.length old - 1)%nat s'
          else String a (replace_from old new O s')
      end
  end.

(** With an empty [old], Python inserts [new] before every character and at
    the end. *)
Fixpoint intersperse_str (new s : string) : string :=
  match s with
  | EmptyString => new
  | String a s' => new +:+ String a (intersperse_str new s')
  end.

Definition str_replace (old new s : string) : string :=
  match old with
  | EmptyString => intersperse_str new s
  | _ => replace_from old new O s
  end.

(** ** The declared types of the endpoint *)

(** [class SearchType(str, Enum)]. *)
Inductive SearchType : Type :=
  | track
  | album
  | playlist.

(** [type.value]. *)
Definition value (t : SearchType) : string :=
  match t with
  | track => "track"
  | album => "album"
  | playlist => "playlist"
  end.

(** [SearchType(s)]: lookup of a member by value, as the framework does when
    it converts the [type] query parameter. *)
Definition SearchType_of_value (s : string) : option SearchType :=
  if bool_decide (s = "track") then Some track
  else if bool_decide (s = "album") then Some album
  else if bool_decide (s = "playlist") then Some playlist
  else None.

(** [class SpotifyItem(BaseModel)]. *)
Record SpotifyItem : Type := { name : string; uri : string }.

(** [class SearchResponse(BaseModel)]. *)
Record SearchResponse : Type := { results : list SpotifyItem; total : Z }.

(** A text without braces. *)
Fixpoint brace_free (s : string) : bool :=
  match s with
  | EmptyString => true
  | String a s' =>
      negb (bool_decide (a = "{"%char)) && negb (bool_decide (a = "}"%char))
      && brace_free s'
  end.

(** The validation library is not part of the repository.  What the handler
    relies on is its treatment of a field declared [str] (and, at the
    endpoint, of a query parameter declared [int]): a string is taken as it
    is and [None] is refused; whether other values are converted or refused
    differs between releases of the library and is left open.  So is the
    text of the error raised for [SpotifyItem(name=n, uri=u)], except that
    it reports the fields that fail and quotes at most their values: when
    every field that fails holds [None], the text has no brace. *)
Class Pydantic : Type := {
  str_validator : PyVal -> option string;
  int_validator : string -> option Z;
  validation_error_text : PyVal -> PyVal -> string;
  str_validator_str : forall s, str_validator (PStr s) = Some s;
  str_validator_None : str_validator PNone = None;
  validation_error_text_None : forall n u,
    (str_validator n = None -> n = PNone) ->
    (str_validator u = None -> u = PNone) ->
    brace_free (validation_error_text n u) = true
}.

(** [type(v).__name__]. *)
Definition type_name (v : PyVal) : string :=
  match v with
  | PNone => "NoneType"
  | PBool _ => "bool"
  | PInt _ => "int"
  | PFloat _ => "float"
  | PStr _ => "str"
  | PList _ => "list"
  | PDict _ => "dict"
  end.

(** What a release that converts nothing reports for one field: nothing when
    the value is a string, otherwise the field and the type of the input. *)
Definition field_error (field : string) (v : PyVal) : string :=
  match v with
  | PStr _ => EmptyString
  | _ => " " +:+ field +:+ ": Input should be a valid string [input_type="
         +:+ type_name v +:+ "]"
  end.

(** A release that converts nothing: only strings pass a [str] field; a query
    parameter passes an [int] field when it is a decimal numeral; the error
    text names the fields that fail and the types of their inputs, not the
    inputs themselves. *)
#[export] Instance strict_pydantic : Pydantic.
Proof.
  refine {|
    str_validator v := match v with PStr s => Some s | _ => None end;
    int_validator s := Z.of_int <$> NilZero.int_of_string s;
    validation_error_text n u :=
      "validation error for SpotifyItem:" +:+ field_error "name" n
        +:+ field_error "uri" u
  |}.
  - reflexivity.
  - reflexivity.
  - intros n u _ _. destruct n, u; reflexivity.
Defined.

(** [SpotifyItem(name=n, uri=u)]: both fields are validated, and one
    [ValidationError] reports every field that fails. *)
Definition new_SpotifyItem `{Pydantic} (n u : PyVal) : Result SpotifyItem :=
  match str_validator n, str_validator u with
  | Some n', Some u' => Ok {| name := n'; uri := u' |}
  | _, _ => Raise (ValidationError (validation_error_text n u))
  end.

(** ** Error texts and the logging library

    Neither the texts of the interpreter's exceptions nor the logging
    library are part of the repository.  [str_exn e] is [str(e)]: the text a
    transport exception or a validation error was raised with; for the
    interpreter's [TypeError] and [AttributeError], which name types and
    attributes only, a text without braces.  [format_message m] is what the
    library does with the message of a call that passes keyword arguments,
    as the call of the [except] clause does with [exc_info=True]: it
    evaluates [m.format(exc_info=True)] before it emits any record, and
    this raises when [m] holds a brace that is no valid replacement field.  A
    message without braces is left as it is. *)
Class Logging : Type := {
  str_exn : exn -> string;
  format_message : string -> Result string;
  str_exn_ConnectionError : forall d, str_exn (ConnectionError d) = d;
  str_exn_ReadTimeout : forall d, str_exn (ReadTimeout d) = d;
  str_exn_SpotifyException : forall c d, str_exn (SpotifyException c d) = d;
  str_exn_SpotifyOauthError : forall d, str_exn (SpotifyOauthError d) = d;
  str_exn_JSONDecodeError : forall d, str_exn (JSONDecodeError d) = d;
  str_exn_ValidationError : forall t, str_exn (ValidationError t) = t;
  str_exn_TypeError : brace_free (str_exn TypeError) = true;
  str_exn_AttributeError : brace_free (str_exn AttributeError) = true;
  format_message_plain : forall m, brace_free m = true -> format_message m = Ok m
}.

(** A formatter for the instance below. *)
Definition is_digit (a : ascii) : bool :=
  (48 <=? nat_of_ascii a)%nat && (nat_of_ascii a <=? 57)%nat.

Fixpoint all_digits (s : string) : bool :=
  match s with
  | EmptyString => true
  | String a s' => is_digit a && all_digits s'
  end.

(** The part of a replacement field that names the argument: the text before
    the first of [.], [[], [!] and [:]. *)
Fixpoint arg_name (field : string) : string :=
  match field with
  | EmptyString => EmptyString
  | String a field' =>
      if bool_decide (a = "."%char) || bool_decide (a = "["%char)
         || bool_decide (a = "!"%char) || bool_decide (a = ":"%char)
      then EmptyString
      else String a (arg_name field')
  end.

(** The value of a replacement field when the only argument of [format] is
    the keyword [exc_info=True]: a field without a name or with a number
    finds no positional argument, a field with another name finds no such
    keyword.  Fields that apply a conversion, a specification, an attribute
    or an index to [exc_info] are not modelled and are refused here. *)
Definition resolve_field (field : string) : Result string :=
  let name := arg_name field in
  if all_digits name then Raise IndexError
  else if bool_decide (name = "exc_info") then
    if bool_decide (field = name) then Ok "True"
    else Raise (ValueError "field of exc_info not modelled")
  else Raise (KeyError name).

(** The formatter reads the message from left to right.  [field] is the
    replacement field being read, with the depth of nested braces in its
    format specification and whether the specification or conversion has
    begun. *)

(** The formatted text with [s] put in front of it. *)
Definition prepend (s : string) (r : Result string) : Result string :=
  match r with
  | Ok t => Ok (s +:+ t)
  | Raise e => Raise e
  end.

Definition prepend_char (a : ascii) (r : Result string) : Result string :=
  match r with
  | Ok t => Ok (String a t)
  | Raise e => Raise e
  end.

Fixpoint format_from (m : string) (field : option (string * nat * bool))
    : Result string :=
  match m with
  | EmptyString =>
      match field with
      | None => Ok EmptyString
      | Some _ => Raise (ValueError "expected '}' before end of string")
      end
  | String a m' =>
      match field with
      | Some (f, depth, spec) =>
          if bool_decide (a = "}"%char) then
            match depth with
            | O =>
                match resolve_field f with
                | Ok v => prepend v (format_from m' None)
                | Raise e => Raise e
                end
            | S depth' =>
                format_from m' (Some (f +:+ String a EmptyString, depth', spec))
            end
          else if bool_decide (a = "{"%char) then
            if spec
            then format_from m' (Some (f +:+ String a EmptyString, S depth, spec))
            else Raise (ValueError "unexpected '{' in field name")
          else
            format_from m'
              (Some (f +:+ String a EmptyString, depth,
                     spec || bool_decide (a = ":"%char) || bool_decide (a = "!"%char)))
      | None =>
          if bool_decide (a = "{"%char) then
            match m' with
            | EmptyString =>
                Raise (ValueError "Single '{' encountered in format string")
            | String b m'' =>
                if bool_decide (b = "{"%char)
                then prepend_char "{" (format_from m'' None)
                else format_from m' (Some (EmptyString, O, false))
            end
          else if bool_decide (a = "}"%char) then
            match m' with
            | String b m'' =>
                if bool_decide (b = "}"%char)
                then prepend_char "}" (format_from m'' None)
                else Raise (ValueError "Single '}' encountered in format string")
            | EmptyString =>
                Raise (ValueError "Single '}' encountered in format string")
            end
          else prepend_char a (format_from m' None)
      end
  end.

(** Texts for the interpreter's exceptions in the instance below. *)
Definition exn_text (e : exn) : string :=
  match e with
  | ConnectionError d | ReadTimeout d | SpotifyException _ d
  | SpotifyOauthError d | JSONDecodeError d | ValueError d => d
  | ValidationError t => t
  | KeyError key => "'" +:+ key +:+ "'"
  | TypeError => "object is not iterable"
  | AttributeError => "object has no attribute 'get'"
  | IndexError => "Replacement index 0 out of range for positional args tuple"
  | KeyboardInterrupt | SystemExit => EmptyString
  end.

#[export] Instance python_logging : Logging.
Proof.
  refine {|
    str_exn := exn_text;
    format_message m := format_from m None
  |}; try reflexivity.
  intros m. induction m as [|a m IH]; simpl; [ done | ].
  intros [[Ho Hc]%andb_prop Hm]%andb_prop.
  apply negb_true_iff in Ho, Hc. by rewrite Ho, Hc, IH.
Defined.

(** ** Effects

    The handler writes log lines and calls the provider through the
    module-level client [sp].  Both are recorded, in order, in the world the
    handler runs in. *)

Inductive LogLevel : Type := INFO | WARNING | ERROR.

(** One constructor per [logger] call of the handler, with the values its
    message is formatted from. *)
Inductive LogMsg : Type :=
  | MsgSearching (type : SearchType) (query : string) (limit : Z)
  | MsgNoResults
  | MsgMissingKey (result_key : string)
  | MsgNoneFound (type_value : string) (query : string)
  | MsgFound (total : Z) (type_value : string)
  | MsgError (e : exn).

(** The keyword arguments of [sp.search]. *)
Record SearchCall : Type := {
  call_q : string;
  call_type : string;
  call_limit : Z;
  call_market : string
}.

(** The provider behind [sp]: what a search call returns or raises. *)
Definition Spotify : Type := SearchCall -> Result PyVal.

Record World : Type := {
  log : list (LogLevel * LogMsg);
  calls : list SearchCall
}.

Definition M (A : Type) : Type := World -> Result A * World.

Definition ret {A} (a : A) : M A := fun w => (Ok a, w).

Definition bind {A B} (m : M A) (k : A -> M B) : M B :=
  fun w =>
    match m w with
    | (Ok a, w') => k a w'
    | (Raise e, w') => (Raise e, w')
    end.

(** A pure operation that may raise. *)
Definition lift {A} (r : Result A) : M A := fun w => (r, w).

Declare Scope py_scope.
Delimit Scope py_scope with py.
Notation "x <- m ;; k" := (bind m (fun x => k))
  (at level 100, m at next level, right associativity) : py_scope.
Notation "m ;;; k" := (bind m (fun _ => k))
  (at level 100, right associativity) : py_scope.
#[local] Open Scope py_scope.

Definition logger (lvl : LogLevel) (msg : LogMsg) : M unit :=
  fun w => (Ok tt, {| log := log w ++ [(lvl, msg)]; calls := calls w |}).

(** [logger.error(message, exc_info=True)]: a call that passes a keyword
    argument.  The library formats the message with the keyword arguments
    first, and emits the record only when that has not raised. *)
Definition logger_kwargs `{Logging} (lvl : LogLevel) (message : string)
    (msg : LogMsg) : M unit :=
  fun w =>
    match format_message message with
    | Ok _ => logger lvl msg w
    | Raise e => (Raise e, w)
    end.

(** [f"Error processing search request: {str(e)}"]. *)
Definition error_line `{Logging} (e : exn) : string :=
  "Error processing search request: " +:+ str_exn e.

Definition sp_search (sp : Spotify) (c : SearchCall) : M PyVal :=
  fun w => (sp c, {| log := log w; calls := calls w ++ [c] |}).

(** [try: body except Exception as e: handler(e)]. *)
Definition try_except_Exception {A} (body : M A) (handler : exn -> M A) : M A :=
  fun w =>
    match body w with
    | (Ok a, w') => (Ok a, w')
    | (Raise e, w') =>
        if isinstance_Exception e then handler e w' else (Raise e, w')
    end.

(** ** The handler *)

(** The response of every path that finds nothing:
    [SearchResponse(results=[], total=0)]. *)
Definition empty_response : SearchResponse := {| results := []; total := 0 |}.

(** The test of the loop body:
    [isinstance(item, dict) and 'name' in item and 'uri' in item]. *)
Definition has_name_and_uri (item : PyVal) : bool :=
  match item with
  | PDict d =>
      bool_decide (is_Some (d !! "name")) && bool_decide (is_Some (d !! "uri"))
  | _ => false
  end.

(** The loop [for item in items: ...], started with the list built so
    far. *)
Fixpoint for_item_in `{Pydantic} (items : list PyVal)
    (simplified_results : list SpotifyItem) : M (list SpotifyItem) :=
  match items with
  | [] => ret simplified_results
  | item :: rest =>
      if has_name_and_uri item then
        n <- lift (py_getitem item "name") ;;
        u <- lift (py_getitem item "uri") ;;
        it <- lift (new_SpotifyItem n u) ;;
        for_item_in rest (simplified_results ++ [it])
      else for_item_in rest simplified_results
  end.

(** [f"{type.value}s"]: the key of the section of the payload that holds the
    results of the requested type, derived by appending an [s]. *)
Definition result_key_of (type : SearchType) : string := value type +:+ "s".

(** [async def search(query, type, limit)], with the client [sp] it reads
    from the module. *)
Definition search `{Pydantic} `{Logging} (sp : Spotify)
    (query : string) (type : SearchType) (limit : Z) : M SearchResponse :=
  logger INFO (MsgSearching type query limit) ;;;
  try_except_Exception
    (let limit := Z.min (Z.max 1 limit) 50 in
     let query := str_replace "_" " " query in
     results <- sp_search sp {| call_q := query; call_type := value type;
                                call_limit := limit; call_market := "US" |} ;;
     if negb (truthy results) then
       logger WARNING MsgNoResults ;;;
       ret empty_response
     else
       let result_key := result_key_of type in
       present <- lift (py_contains result_key results) ;;
       if negb present then
         logger ERROR (MsgMissingKey result_key) ;;;
         ret empty_response
       else
         section <- lift (py_getitem results result_key) ;;
         items <- lift (py_get section "items" (PList [])) ;;
         if negb (truthy items) then
           logger INFO (MsgNoneFound (value type) query) ;;;
           ret empty_response
         else
           elements <- lift (py_iter items) ;;
           simplified_results <- for_item_in elements [] ;;
           let total := Z.of_nat (length simplified_results) in
           logger INFO (MsgFound total (value type)) ;;;
           ret {| results := simplified_results; total := total |})
    (fun e =>
       logger_kwargs ERROR (error_line e) (MsgError e) ;;;
       ret empty_response).

(** ** The endpoint

    [@app.get("/search", response_model=SearchResponse)]: the framework
    converts the query parameters according to the handler's signature and
    calls the handler only when all of them convert; otherwise it answers 422
    and lists the parameters that failed.  An exception that leaves the
    handler leaves the endpoint; what the server in front of the endpoint
    makes of it is not modelled. *)

Inductive HttpBody : Type :=
  | SearchBody (r : SearchResponse)
  | ValidationErrors (fields : list string).

Record HttpResponse : Type := { status : Z; body : HttpBody }.

(** [query: str]: required. *)
Definition convert_query (raw : option string) : option string := raw.

(** [type: SearchType]: required, one of the members' values. *)
Definition convert_type (raw : option string) : option SearchType :=
  raw ≫= SearchType_of_value.

(** [limit: int = 5]. *)
Definition convert_limit `{Pydantic} (raw : option string) : option Z :=
  match raw with
  | None => Some 5
  | Some s => int_validator s
  end.

Definition failed {A} (field : string) (o : option A) : list string :=
  match o with
  | Some _ => []
  | None => [field]
  end.

Definition get_search `{Pydantic} `{Logging} (sp : Spotify)
    (raw_query raw_type raw_limit : option string) : M HttpResponse :=
  match convert_query raw_query, convert_type raw_type, convert_limit raw_limit with
  | Some query, Some type, Some limit =>
      r <- search sp query type limit ;;
      ret {| status := 200; body := SearchBody r |}
  | q, t, l =>
      ret {| status := 422;
             body := ValidationErrors
                       (failed "query" q ++ failed "type" t ++ failed "limit" l) |}
  end.

(** A status in the 4xx range. *)
Definition client_error (s : Z) : Prop := 400 <= s < 500.

(** The world before the first request. *)
Definition startup : World := {| log := []; calls := [] |}.


(** ** Definitions used to state the properties *)

(** The search call the handler issues for a request; [search_calls] below
    shows that the handler issues this call and no other. *)
Definition search_call (query : string) (type : SearchType) (limit : Z) : SearchCall :=
  {| call_q := str_replace "_" " " query;
     call_type := value type;
     call_limit := Z.min (Z.max 1 limit) 50;
     call_market := "US" |}.

(** The limit rule in the specification's words: values below 1 become 1,
    values above 50 become 50, values in between are unchanged. *)
Definition clamp_limit (L : Z) : Z :=
  if L <? 1 then 1 else if 50 <? L then 50 else L.

(** The query rule in the specification's words: every underscore becomes a
    space and every other character stays. *)
Definition underscore_to_space (a : ascii) : ascii :=
  if bool_decide (a = "_"%char) then " "%char else a.

Fixpoint underscores_to_spaces (s : string) : string :=
  match s with
  | EmptyString => EmptyString
  | String a s' => String (underscore_to_space a) (underscores_to_spaces s')
  end.

(** The specification's fixed table from content type to response key. *)
Definition result_key_table (t : SearchType) : string :=
  match t with
  | track => "tracks"
  | album => "albums"
  | playlist => "playlists"
  end.

(** The shapes of a provider response that hold no results: nothing
    structured at all (a false value, or a value that is not a dictionary), a
    dictionary without the section of the requested type, and a section whose
    [items] entry is absent or empty. *)
Inductive anomalous (key : string) : PyVal -> Prop :=
  | anomalous_false v :
      truthy v = false -> anomalous key v
  | anomalous_unstructured v :
      isinstance_dict v = false -> anomalous key v
  | anomalous_missing_key d :
      d !! key = None -> anomalous key (PDict d)
  | anomalous_items_absent d sec :
      d !! key = Some (PDict sec) -> sec !! "items" = None ->
      anomalous key (PDict d)
  | anomalous_items_empty d sec items :
      d !! key = Some (PDict sec) -> sec !! "items" = Some items ->
      truthy items = false ->
      anomalous key (PDict d).

(** The output item of a record whose [name] and [uri] are both strings. *)
Definition well_formed_item (item : PyVal) : option SpotifyItem :=
  match item with
  | PDict d =>
      match d !! "name", d !! "uri" with
      | Some (PStr n), Some (PStr u) => Some {| name := n; uri := u |}
      | _, _ => None
      end
  | _ => None
  end.

(** A list of items in which every record that has both keys has strings
    under them. *)
Definition clean (items : list PyVal) : Prop :=
  forall item, item ∈ items -> has_name_and_uri item = true ->
    is_Some (well_formed_item item).

(** A provider response for a track search with the given items. *)
Definition tracks_payload (items : list PyVal) : PyVal :=
  PDict {[ "tracks" := PDict {[ "items" := PList items ]} ]}.

Definition record (n u : PyVal) : PyVal :=
  PDict (<["name" := n]> (<["uri" := u]> ∅)).

Definition song_a : PyVal := record (PStr "Song A") (PStr "spotify:track:123").
Definition song_b : PyVal := record (PStr "Song B") (PStr "spotify:track:456").
Definition no_uri : PyVal := PDict {[ "name" := PStr "Song C" ]}.
Definition null_name : PyVal := record PNone (PStr "spotify:track:789").
Definition null_uri : PyVal := record (PStr "Song D") PNone.

(** Providers for the examples: one that cannot be reached, one that
    answers a search with an album section only, one that answers with two
    track items, and one that answers with the same items and a count of its
    own beside them. *)
Definition unreachable : Spotify :=
  fun _ => Raise (ConnectionError "connection refused").

Definition albums_only : Spotify :=
  fun _ => Ok (PDict {[ "albums" := PDict {[ "items" := PList [song_a] ]} ]}).

Definition two_items : Spotify :=
  fun _ => Ok (tracks_payload [song_a; no_uri]).

Definition two_items_of_1000 : Spotify :=
  fun _ => Ok (PDict {[ "tracks" :=
                 PDict (<["total" := PInt 1000]>
                          {[ "items" := PList [song_a; no_uri] ]}) ]}).

(** A provider that answers the query [song] as [two_items_of_1000] does and
    times out on every other query. *)
Definition slow_elsewhere : Spotify :=
  fun c =>
    if bool_decide (call_q c = "song") then two_items_of_1000 c
    else Raise (ReadTimeout "read timed out").

(** The answer of the endpoint that carries a handler response. *)
Definition http_ok (r : SearchResponse) : HttpResponse :=
  {| status := 200; body := SearchBody r |}.

(** A world after more log lines and more provider calls. *)
Definition extend (w : World) (ls : list (LogLevel * LogMsg)) (cs : list SearchCall) : World :=
  {| log := log w ++ ls; calls := calls w ++ cs |}.

(** A computation whose result and whose additions to the log and to the
    record of calls do not depend on the world it starts from. *)
Definition oblivious {A} (m : M A) : Prop :=
  exists r ls cs, forall w, m w = (r, extend w ls cs).

(** ** Module initialisation

    The statements the module runs when it is loaded: the check of the
    required environment variables and the construction of the client from
    them.  [environ] is the process environment after [load_dotenv()]. *)

(** [os.getenv(key)]: the value, or [None] when the variable is not set. *)
Definition os_getenv (environ : gmap string string) (key : string) : PyVal :=
  match environ !! key with
  | Some s => PStr s
  | None => PNone
  end.

Definition required_env_vars : list string := ["CLIENT_ID"; "CLIENT_SECRET"].

(** [[var for var in required_env_vars if not os.getenv(var)]]. *)
Definition missing_vars (environ : gmap string string) : list string :=
  List.filter (fun var => negb (truthy (os_getenv environ var))) required_env_vars.

(** [sep.join(l)]. *)
Fixpoint str_join (sep : string) (l : list string) : string :=
  match l with
  | [] => EmptyString
  | s :: rest =>
      match rest with
      | [] => s
      | _ :: _ => s +:+ sep +:+ str_join sep rest
      end
  end.

(** How loading the module ends: with the client [sp] built from the two
    values read from the environment, or with the [RuntimeError] raised
    after the error line has been logged. *)
Inductive Loaded : Type :=
  | ClientBuilt (client_id client_secret : PyVal)
  | RuntimeError (logged : string) (message : string).

Definition load_module (environ : gmap string string) : Loaded :=
  let missing_vars := missing_vars environ in
  match missing_vars with
  | _ :: _ =>
      RuntimeError
        ("Missing required environment variables: " +:+ str_join ", " missing_vars)
        ("Please set the following environment variables: "
           +:+ str_join ", " missing_vars)
  | [] =>
      ClientBuilt (os_getenv environ "CLIENT_ID") (os_getenv environ "CLIENT_SECRET")
  end.

(** A variable that is not set or is set to the empty string. *)
Definition unset (environ : gmap string string) (var : string) : Prop :=
  environ !! var = None \/ environ !! var = Some EmptyString.

(** ** Further definitions used to state properties of the handler *)

(** What the loop appends for one item when it does not raise: the validated
    [name] and [uri] of a record that has both keys, nothing for any other
    item. *)
Definition item_output `{Pydantic} (item : PyVal) : option SpotifyItem :=
  match item with
  | PDict d =>
      match d !! "name", d !! "uri" with
      | Some n, Some u =>
          match str_validator n, str_validator u with
          | Some n', Some u' => Some {| name := n'; uri := u' |}
          | _, _ => None
          end
      | _, _ => None
      end
  | _ => None
  end.

(** The [name] and [uri] of the first record of the list that has both keys
    and fails validation. *)
Fixpoint first_failure `{Pydantic} (items : list PyVal) : option (PyVal * PyVal) :=
  match items with
  | [] => None
  | item :: rest =>
      match item with
      | PDict d =>
          match d !! "name", d !! "uri" with
          | Some n, Some u =>
              match str_validator n, str_validator u with
              | Some _, Some _ => first_failure rest
              | _, _ => Some (n, u)
              end
          | _, _ => first_failure rest
          end
      | _ => first_failure rest
      end
  end.

(** Every record of the list that has both keys passes validation. *)
Definition all_validate `{Pydantic} (items : list PyVal) : bool :=
  forallb (fun item => implb (has_name_and_uri item)
                             (bool_decide (is_Some (item_output item)))) items.

(** The last line a call of the handler has logged. *)
Definition last_line (w : World) : option (LogLevel * LogMsg) := last (log w).

(** Further providers for the examples: one whose track section is [null],
    and one whose [items] entry is a string. *)
Definition null_section : Spotify :=
  fun _ => Ok (PDict {[ "tracks" := PNone ]}).

Definition items_as_text : Spotify :=
  fun _ => Ok (PDict {[ "tracks" := PDict {[ "items" := PStr "none" ]} ]}).

(** A provider whose failure text holds a brace pair, as a text that quotes
    a JSON body does. *)
Definition braced_failure : Spotify :=
  fun _ => Raise (ConnectionError "{oops}").

(** The response to [two_items]. *)
Definition song_a_alone : SearchResponse :=
  {| results := [{| name := "Song A"; uri := "spotify:track:123" |}]; total := 1 |}.

(** An environment with both credentials, and one in which the secret is
    set to the empty string. *)
Definition full_environ : gmap string string :=
  <["CLIENT_ID" := "id-123"]> (<["CLIENT_SECRET" := "s3cret"]> ∅).

Definition empty_secret_environ : gmap string string :=
  <["CLIENT_ID" := "id-123"]> (<["CLIENT_SECRET" := ""]> ∅).

(** How the [except] clause ends for an exception it has caught: with the
    empty response when the error line formats, and with what the formatting
    raises when it does not. *)
Definition except_result `{Logging} (e : exn) : Result SearchResponse :=
  match format_message (error_line e) with
  | Ok _ => Ok empty_response
  | Raise e' => Raise e'
  end.

(** The same, with the world the clause leaves behind: the error line is
    added to the log only when it formats. *)
Definition except_run `{Logging} (e : exn) (w : World) : Result SearchResponse * World :=
  match format_message (error_line e) with
  | Ok _ => (Ok empty_response,
             {| log := log w ++ [(ERROR, MsgError e)]; calls := calls w |})
  | Raise e' => (Raise e', w)
  end.

(** ** Basic facts about the effects *)

Lemma brace_free_app s1 s2 :
  brace_free (s1 +:+ s2) = brace_free s1 && brace_free s2.
Proof.
  induction s1 as [|a s1 IH]; [ done | ].
  change (String a s1 +:+ s2) with (String a (s1 +:+ s2)).
  cbn [brace_free]. rewrite IH. by rewrite !andb_assoc.
Qed.

(** An exception whose text has no brace is logged and answered with the
    empty response. *)
Lemma except_result_plain `{Logging} e :
  brace_free (str_exn e) = true -> except_result e = Ok empty_response.
Proof.
  intros He. unfold except_result, error_line.
  rewrite format_message_plain; [ done | ].
  rewrite brace_free_app, He. done.
Qed.

Lemma except_result_TypeError `{Logging} : except_result TypeError = Ok empty_response.
Proof. apply except_result_plain, str_exn_TypeError. Qed.

Lemma except_result_AttributeError `{Logging} :
  except_result AttributeError = Ok empty_response.
Proof. apply except_result_plain, str_exn_AttributeError. Qed.

(** Everything the transport raises is caught by [except Exception]. *)
Lemma transport_failures_are_exceptions code detail :
  isinstance_Exception (ConnectionError detail) = true
  /\ isinstance_Exception (ReadTimeout detail) = true
  /\ isinstance_Exception (SpotifyException code detail) = true
  /\ isinstance_Exception (SpotifyOauthError detail) = true
  /\ isinstance_Exception (JSONDecodeError detail) = true.
Proof. done. Qed.

Lemma extend_nil w : extend w [] [] = w.
Proof. destruct w; unfold extend; simpl. by rewrite !app_nil_r. Qed.

Lemma extend_extend w ls1 cs1 ls2 cs2 :
  extend (extend w ls1 cs1) ls2 cs2 = extend w (ls1 ++ ls2) (cs1 ++ cs2).
Proof. unfold extend; simpl. by rewrite !app_assoc. Qed.

Lemma oblivious_ret {A} (a : A) : oblivious (ret a).
Proof. exists (Ok a), [], []. intros w. by rewrite extend_nil. Qed.

Lemma oblivious_lift {A} (r : Result A) : oblivious (lift r).
Proof. exists r, [], []. intros w. by rewrite extend_nil. Qed.

Lemma oblivious_logger lvl msg : oblivious (logger lvl msg).
Proof.
  exists (Ok tt), [(lvl, msg)], []. intros w.
  unfold logger, extend. by rewrite app_nil_r.
Qed.

Lemma oblivious_logger_kwargs `{Logging} lvl message msg :
  oblivious (logger_kwargs lvl message msg).
Proof.
  unfold logger_kwargs. destruct (format_message message) as [m|e].
  - apply oblivious_logger.
  - exists (Raise e), [], []. intros w. by rewrite extend_nil.
Qed.

Lemma oblivious_sp_search sp c : oblivious (sp_search sp c).
Proof.
  exists (sp c), [], [c]. intros w.
  unfold sp_search, extend. by rewrite app_nil_r.
Qed.

Lemma oblivious_bind {A B} (m : M A) (k : A -> M B) :
  oblivious m -> (forall a, oblivious (k a)) -> oblivious (bind m k).
Proof.
  intros (r & ls & cs & Hm) Hk. destruct r as [a|e].
  - destruct (Hk a) as (r' & ls' & cs' & Hka).
    exists r', (ls ++ ls'), (cs ++ cs'). intros w.
    unfold bind. by rewrite Hm, Hka, extend_extend.
  - exists (Raise e), ls, cs. intros w. unfold bind. by rewrite Hm.
Qed.

Lemma oblivious_try {A} (body : M A) (handler : exn -> M A) :
  oblivious body -> (forall e, oblivious (handler e)) ->
  oblivious (try_except_Exception body handler).
Proof.
  intros (r & ls & cs & Hm) Hh. destruct r as [a|e].
  - exists (Ok a), ls, cs. intros w. unfold try_except_Exception. by rewrite Hm.
  - destruct (isinstance_Exception e) eqn:He.
    + destruct (Hh e) as (r' & ls' & cs' & Hhe).
      exists r', (ls ++ ls'), (cs ++ cs'). intros w.
      unfold try_except_Exception. by rewrite Hm, He, Hhe, extend_extend.
    + exists (Raise e), ls, cs. intros w.
      unfold try_except_Exception. by rewrite Hm, He.
Qed.

Create HintDb oblivious.
#[local] Hint Resolve oblivious_ret oblivious_lift oblivious_logger
  oblivious_logger_kwargs oblivious_sp_search : oblivious.

Ltac oblivious_step :=
  first
    [ apply oblivious_bind; [ | intros ? ]
    | apply oblivious_try; [ | intros ? ]
    | match goal with |- oblivious (if ?b then _ else _) => destruct b end
    | solve [ eauto with oblivious ] ].

(** The two ways the [except] clause can end for an exception it catches,
    and the way past it for one it does not catch. *)
Ltac caught e :=
  destruct (isinstance_Exception e);
  [ destruct (format_message (error_line e)) | ]; simpl.

Lemma except_run_result `{Logging} e w : (except_run e w).1 = except_result e.
Proof. unfold except_run, except_result. by destruct (format_message _). Qed.

Lemma except_run_calls `{Logging} e w : calls (except_run e w).2 = calls w.
Proof. unfold except_run. by destruct (format_message _). Qed.

(** Unfolds the handler down to its paths; the [except] clause is kept
    folded as [handler], which [Hhandler] equates with [except_run]. *)
Ltac open_search :=
  unfold search;
  match goal with
  | |- context [try_except_Exception _ ?h] =>
      set (handler := h);
      assert (Hhandler : forall e w, handler e w = except_run e w)
        by (intros; subst handler;
            unfold except_run, bind, logger_kwargs, logger, ret;
            by destruct (format_message _));
      clearbody handler
  end;
  unfold try_except_Exception, bind, logger, sp_search, lift, ret.

Section Handler.
Context `{Pydantic} `{Logging}.
Variable sp : Spotify.

Lemma oblivious_for_item_in items acc : oblivious (for_item_in items acc).
Proof.
  revert acc. induction items as [|item rest IH]; intros acc; simpl.
  - apply oblivious_ret.
  - destruct (has_name_and_uri item); [ | apply IH ].
    repeat (apply oblivious_bind; [ apply oblivious_lift | intros ? ]).
    apply IH.
Qed.

Lemma oblivious_search query type limit : oblivious (search sp query type limit).
Proof.
  unfold search.
  repeat first [ apply oblivious_for_item_in | oblivious_step ].
Qed.

Lemma oblivious_get_search raw_query raw_type raw_limit :
  oblivious (get_search sp raw_query raw_type raw_limit).
Proof.
  unfold get_search.
  destruct (convert_query raw_query), (convert_type raw_type),
    (convert_limit raw_limit); try apply oblivious_ret.
  apply oblivious_bind; [ apply oblivious_search | intros; apply oblivious_ret ].
Qed.

(** The loop touches neither the log nor the provider. *)
Lemma for_item_in_world items acc w : (for_item_in items acc w).2 = w.
Proof.
  revert acc. induction items as [|item rest IH]; intros acc; simpl; [done|].
  destruct (has_name_and_uri item); [ | apply IH ].
  unfold bind, lift.
  destruct (py_getitem item "name"); [ | done ].
  destruct (py_getitem item "uri"); [ | done ].
  destruct (new_SpotifyItem _ _); [ apply IH | done ].
Qed.

(** The handler issues exactly one provider call, with the cleaned query,
    the value of the type, the bounded limit and the fixed market. *)
Lemma search_calls query type limit w :
  calls (search sp query type limit w).2
  = calls w ++ [search_call query type limit].
Proof.
  unfold search, try_except_Exception, bind, logger_kwargs, logger, sp_search,
    lift, ret.
  fold (search_call query type limit). simpl.
  destruct (sp _) as [v|e]; simpl; [ | by caught e ].
  destruct (truthy v); simpl; [ | done ].
  destruct (py_contains _ v) as [[]|e]; simpl;
    [ | done | by caught e ].
  destruct (py_getitem v _) as [sec|e]; simpl;
    [ | by caught e ].
  destruct (py_get sec _ _) as [items|e]; simpl;
    [ | by caught e ].
  destruct (truthy items); simpl; [ | done ].
  destruct (py_iter items) as [elements|e]; simpl;
    [ | by caught e ].
  pose proof (for_item_in_world elements []
    {| log := log w ++ [(INFO, MsgSearching type query limit)];
       calls := calls w ++ [search_call query type limit] |}) as Hw.
  destruct (for_item_in elements [] _) as [[l|e] w']; simpl in *; subst w';
    [ done | by caught e ].
Qed.

(** The provider enters the handler through its reply to the one call the
    handler issues. *)
Lemma search_reply_only (sp' : Spotify) query type limit w :
  sp' (search_call query type limit) = sp (search_call query type limit) ->
  search sp' query type limit w = search sp query type limit w.
Proof.
  intros Heq.
  unfold search, try_except_Exception, bind, logger, sp_search, lift, ret.
  fold (search_call query type limit). simpl. by rewrite Heq.
Qed.

Lemma convert_type_value type : convert_type (Some (value type)) = Some type.
Proof. by destruct type. Qed.

(** When the parameters convert, the endpoint answers 200 with whatever the
    handler returns, and passes on what the handler lets through. *)
Lemma get_search_valid query type limit raw_limit w :
  convert_limit raw_limit = Some limit ->
  get_search sp (Some query) (Some (value type)) raw_limit w
  = match search sp query type limit w with
    | (Ok r, w') => (Ok (http_ok r), w')
    | (Raise e, w') => (Raise e, w')
    end.
Proof.
  intros Hl. unfold get_search. rewrite convert_type_value, Hl. simpl.
  unfold bind. by destruct (search sp query type limit w) as [[r|e] w'].
Qed.

Lemma get_search_valid_ok query type limit raw_limit w r :
  convert_limit raw_limit = Some limit ->
  (search sp query type limit w).1 = Ok r ->
  (get_search sp (Some query) (Some (value type)) raw_limit w).1
  = Ok (http_ok r).
Proof.
  intros Hl Hr. rewrite (get_search_valid _ _ _ _ _ Hl).
  destruct (search sp query type limit w) as [[r'|e] w']; simpl in *; congruence.
Qed.

(** What the handler returns when the provider call raises. *)
Lemma search_raise query type limit e w :
  sp (search_call query type limit) = Raise e ->
  (search sp query type limit w).1
  = if isinstance_Exception e then except_result e else Raise e.
Proof.
  intros Hsp.
  unfold search, try_except_Exception, bind, logger_kwargs, logger, sp_search,
    lift, ret, except_result.
  fold (search_call query type limit). simpl. rewrite Hsp.
  by caught e.
Qed.

(** ... and when it returns a response that holds no results. *)
Lemma search_anomalous query type limit v w :
  sp (search_call query type limit) = Ok v ->
  anomalous (result_key_of type) v ->
  (search sp query type limit w).1 = Ok empty_response.
Proof.
  intros Hsp Hv.
  pose proof except_result_TypeError as Hcaught.
  unfold except_result in Hcaught.
  unfold search, try_except_Exception, bind, logger_kwargs, logger, sp_search,
    lift, ret.
  fold (search_call query type limit). simpl. rewrite Hsp.
  destruct Hv as [v Hf|v Hu|d Hk|d sec Hk Hi|d sec items Hk Hi Hf].
  - by rewrite Hf.
  - destruct (truthy v); simpl; [ | done ].
    destruct v as [| | | |s|l|d]; simpl in *; try done;
      try (by destruct (format_message (error_line TypeError))).
    + destruct (str_contains _ s); simpl; [ | done ].
      by destruct (format_message (error_line TypeError)).
    + destruct (existsb _ l); simpl; [ | done ].
      by destruct (format_message (error_line TypeError)).
  - destruct (truthy (PDict d)); simpl; [ | done ].
    rewrite Hk. rewrite bool_decide_eq_false_2; [ done | ].
    by intros [? ?].
  - destruct (truthy (PDict d)); simpl; [ | done ].
    rewrite Hk. rewrite bool_decide_eq_true_2 by eauto. simpl.
    by rewrite Hi.
  - destruct (truthy (PDict d)); simpl; [ | done ].
    rewrite Hk. rewrite bool_decide_eq_true_2 by eauto. simpl.
    rewrite Hi. simpl. by rewrite Hf.
Qed.

End Handler.

(** ** The loop over the items *)

Lemma well_formed_has_name_and_uri item it :
  well_formed_item item = Some it -> has_name_and_uri item = true.
Proof.
  destruct item as [| | | | | |d]; simpl; try done.
  destruct (d !! "name"), (d !! "uri"); try done;
    rewrite ?bool_decide_eq_true_2 by eauto; try done.
  by destruct p.
Qed.

Section Items.
Context `{Pydantic} `{Logging}.

Lemma new_SpotifyItem_str n u :
  new_SpotifyItem (PStr n) (PStr u) = Ok {| name := n; uri := u |}.
Proof. unfold new_SpotifyItem. by rewrite !str_validator_str. Qed.

Lemma new_SpotifyItem_raises n u e :
  new_SpotifyItem n u = Raise e ->
  e = ValidationError (validation_error_text n u).
Proof.
  unfold new_SpotifyItem.
  destruct (str_validator n), (str_validator u); congruence.
Qed.

(** The only exception the loop can raise is the validation error. *)
Lemma for_item_in_raises items acc w e :
  (for_item_in items acc w).1 = Raise e -> exists text, e = ValidationError text.
Proof.
  revert acc. induction items as [|item rest IH]; intros acc; simpl; [done|].
  destruct item as [| | | | | |d]; simpl; try apply IH.
  destruct (d !! "name") as [n|] eqn:Hn; simpl; [ | apply IH ].
  destruct (d !! "uri") as [u|] eqn:Hu; simpl; [ | apply IH ].
  rewrite ?bool_decide_eq_true_2 by eauto. simpl.
  unfold bind, lift. simpl. rewrite ?Hn, ?Hu.
  destruct (new_SpotifyItem n u) as [it|e'] eqn:Hit; simpl.
  - apply IH.
  - intros [= <-]. apply new_SpotifyItem_raises in Hit. eauto.
Qed.

(** The loop appends the output of every record that has both keys, in the
    order of the list, up to the first of them that fails validation, and
    raises the validation error of that one. *)
Lemma for_item_in_first_failure items acc w :
  (for_item_in items acc w).1
  = match first_failure items with
    | None => Ok (acc ++ omap item_output items)
    | Some (n, u) => Raise (ValidationError (validation_error_text n u))
    end.
Proof.
  revert acc. induction items as [|item rest IH]; intros acc.
  - simpl. by rewrite app_nil_r.
  - cbn [for_item_in first_failure omap list_omap].
    fold (omap item_output rest).
    destruct item as [| | | | | |d]; cbn [has_name_and_uri item_output];
      try apply IH.
    destruct (d !! "name") as [n|] eqn:Hn; [ | apply IH ].
    destruct (d !! "uri") as [u|] eqn:Hu; [ | apply IH ].
    rewrite !bool_decide_eq_true_2 by eauto.
    cbn [andb]. unfold bind, lift.
    cbn [py_getitem]. rewrite Hn, Hu. unfold new_SpotifyItem.
    destruct (str_validator n) as [n'|]; [ | done ].
    destruct (str_validator u) as [u'|]; [ | done ].
    rewrite IH. destruct (first_failure rest) as [[n0 u0]|]; [ done | ].
    by rewrite <- app_assoc.
Qed.

(** On a clean list the loop appends, in the order of the list, the output
    item of every record whose [name] and [uri] are strings. *)
Lemma for_item_in_clean items acc w :
  clean items ->
  for_item_in items acc w = (Ok (acc ++ omap well_formed_item items), w).
Proof.
  revert acc. induction items as [|item rest IH]; intros acc Hclean; simpl.
  - by rewrite app_nil_r.
  - assert (Hrest : clean rest).
    { intros x Hx. apply Hclean. by right. }
    destruct (has_name_and_uri item) eqn:Hhas.
    + destruct (Hclean item) as [it Hit]; [ by left | done | ].
      rewrite Hit.
      destruct item as [| | | | | |d]; simpl in Hit; try done.
      destruct (d !! "name") as [[| | | |n| |]|] eqn:Hn; try done.
      destruct (d !! "uri") as [[| | | |u| |]|] eqn:Hu; try done.
      injection Hit as <-.
      unfold bind, lift. simpl. rewrite Hn, Hu, new_SpotifyItem_str.
      rewrite IH by done. by rewrite <- app_assoc.
    + destruct (well_formed_item item) as [it|] eqn:Hit.
      * apply well_formed_has_name_and_uri in Hit. congruence.
      * by apply IH.
Qed.

(** The result of the loop is the same in every world. *)
Lemma for_item_in_startup items acc w :
  for_item_in items acc w = ((for_item_in items acc startup).1, w).
Proof.
  revert acc. induction items as [|item rest IH]; intros acc; simpl; [done|].
  destruct (has_name_and_uri item); [ | apply IH ].
  unfold bind, lift.
  destruct (py_getitem item "name"); [ | done ].
  destruct (py_getitem item "uri"); [ | done ].
  destruct (new_SpotifyItem _ _); [ apply IH | done ].
Qed.

Variable sp : Spotify.

(** What the handler returns when the payload has the section of the
    requested type: it depends on the section's [items] entry alone. *)
Lemma search_section query type limit d sec w :
  sp (search_call query type limit) = Ok (PDict d) ->
  d !! result_key_of type = Some (PDict sec) ->
  (search sp query type limit w).1
  = let items := default (PList []) (sec !! "items") in
    if truthy items then
      match py_iter items with
      | Ok elements =>
          match (for_item_in elements [] startup).1 with
          | Ok l => Ok {| results := l; total := Z.of_nat (length l) |}
          | Raise e => except_result e
          end
      | Raise _ => Ok empty_response
      end
    else Ok empty_response.
Proof.
  intros Hsp Hk.
  pose proof except_result_TypeError as Hcaught.
  unfold search, try_except_Exception, bind, logger_kwargs, logger, sp_search,
    lift, ret, except_result in *.
  fold (search_call query type limit). simpl. rewrite Hsp.
  assert (Hne : bool_decide (d = ∅) = false).
  { apply bool_decide_eq_false_2. intros ->. by rewrite lookup_empty in Hk. }
  simpl. rewrite Hne, Hk. simpl.
  rewrite ?bool_decide_eq_true_2 by eauto. simpl.
  destruct (truthy (default (PList []) (sec !! "items"))); simpl; [ | done ].
  destruct (py_iter _) as [elements|e] eqn:Hiter; simpl.
  - rewrite for_item_in_startup.
    destruct ((for_item_in elements [] startup).1) as [l|e] eqn:Hl; simpl; [done|].
    apply for_item_in_raises in Hl as [text ->]. simpl.
    by destruct (format_message (error_line (ValidationError text))).
  - assert (e = TypeError) as ->.
    { destruct (default (PList []) (sec !! "items")); simpl in Hiter; congruence. }
    simpl. by destruct (format_message (error_line TypeError)).
Qed.

(** Every response the handler returns carries the length of its list. *)
Lemma search_total query type limit w r :
  (search sp query type limit w).1 = Ok r ->
  total r = Z.of_nat (length (results r)).
Proof.
  open_search. simpl.
  assert (Hempty : forall r', Ok empty_response = Ok r' ->
            total r' = Z.of_nat (length (results r'))) by (by intros ? [= <-]).
  assert (Hexc : forall e (w1 w2 : World),
            (if isinstance_Exception e
             then handler e w1 else (Raise e, w2)).1 = Ok r ->
            total r = Z.of_nat (length (results r))).
  { intros e w1 w2. destruct (isinstance_Exception e); [ | done ].
    rewrite Hhandler, except_run_result. unfold except_result.
    destruct (format_message _); [ auto | done ]. }
  destruct (sp _) as [v|e]; simpl; [ | apply Hexc ].
  destruct (truthy v); simpl; [ | apply Hempty ].
  destruct (py_contains _ v) as [[]|e]; simpl;
    [ | apply Hempty | apply Hexc ].
  destruct (py_getitem v _) as [sec|e]; simpl; [ | apply Hexc ].
  destruct (py_get sec _ _) as [items|e]; simpl; [ | apply Hexc ].
  destruct (truthy items); simpl; [ | apply Hempty ].
  destruct (py_iter items) as [elements|e]; simpl; [ | apply Hexc ].
  destruct (for_item_in elements [] _) as [[l|e] w']; simpl; [ | apply Hexc ].
  by intros [= <-].
Qed.


(** On a clean list of items the handler returns, in the order of the list,
    the records whose [name] and [uri] are strings, and counts them. *)
Lemma search_clean query type limit d sec items w :
  sp (search_call query type limit) = Ok (PDict d) ->
  d !! result_key_of type = Some (PDict sec) ->
  sec !! "items" = Some (PList items) ->
  clean items ->
  (search sp query type limit w).1
  = Ok {| results := omap well_formed_item items;
          total := Z.of_nat (length (omap well_formed_item items)) |}.
Proof.
  intros Hsp Hk Hi Hclean.
  rewrite (search_section _ _ _ _ _ _ Hsp Hk), Hi. simpl.
  destruct items as [|item rest]; [ done | ].
  rewrite bool_decide_eq_false_2 by done. simpl negb. cbv iota.
  by rewrite for_item_in_clean.
Qed.

(** The response to a list of items: the outputs of the records that have
    both keys when all of them pass validation; otherwise what the [except]
    clause makes of the validation error of the first that fails. *)
Lemma search_item_list query type limit d sec items w :
  sp (search_call query type limit) = Ok (PDict d) ->
  d !! result_key_of type = Some (PDict sec) ->
  sec !! "items" = Some (PList items) ->
  (search sp query type limit w).1
  = match first_failure items with
    | None =>
        Ok {| results := omap item_output items;
              total := Z.of_nat (length (omap item_output items)) |}
    | Some (n, u) => except_result (ValidationError (validation_error_text n u))
    end.
Proof.
  intros Hsp Hk Hi.
  rewrite (search_section _ _ _ _ _ _ Hsp Hk), Hi.
  destruct items as [|item rest]; [ done | ].
  cbv zeta. unfold default, id. cbn [truthy py_iter].
  rewrite bool_decide_eq_false_2 by done.
  cbn [negb]. rewrite for_item_in_first_failure.
  by destruct (first_failure (item :: rest)) as [[n u]|].
Qed.

(** When the first record that fails validation fails on [None] values
    only, the response is empty. *)
Lemma search_null query type limit d sec items n u w :
  sp (search_call query type limit) = Ok (PDict d) ->
  d !! result_key_of type = Some (PDict sec) ->
  sec !! "items" = Some (PList items) ->
  first_failure items = Some (n, u) ->
  (str_validator n = None -> n = PNone) ->
  (str_validator u = None -> u = PNone) ->
  (search sp query type limit w).1 = Ok empty_response.
Proof.
  intros Hsp Hk Hi Hfirst Hn Hu.
  rewrite (search_item_list _ _ _ _ _ _ _ Hsp Hk Hi), Hfirst.
  apply except_result_plain. rewrite str_exn_ValidationError.
  by apply validation_error_text_None.
Qed.

End Items.

(** ** Request validation and normalisation *)

Lemma replace_underscore_spec s :
  replace_from "_" " " O s = underscores_to_spaces s.
Proof.
  induction s as [|a s IH]; [done|].
  cbn [replace_from underscores_to_spaces String.prefix String.length Nat.sub].
  unfold underscore_to_space.
  destruct (ascii_dec "_" a) as [<-|Hne].
  - rewrite bool_decide_eq_true_2 by done.
    replace (String.prefix "" s) with true by (by destruct s).
    simpl. by rewrite IH.
  - rewrite bool_decide_eq_false_2 by congruence. by rewrite IH.
Qed.

Lemma underscores_to_spaces_length s :
  String.length (underscores_to_spaces s) = String.length s.
Proof. induction s; simpl; congruence. Qed.

Lemma underscores_to_spaces_id s :
  (forall a, a ∈ String.list_ascii_of_string s -> a ≠ "_"%char) ->
  underscores_to_spaces s = s.
Proof.
  induction s as [|a s IH]; intros Hs; [done|]. simpl.
  unfold underscore_to_space.
  rewrite bool_decide_eq_false_2 by (apply Hs; simpl; left).
  f_equal. apply IH. intros b Hb. apply Hs. simpl. by right.
Qed.

Lemma SearchType_of_value_Some s t :
  SearchType_of_value s = Some t <-> s = value t.
Proof.
  unfold SearchType_of_value. repeat case_bool_decide; subst;
    destruct t; simpl; split; intros; simplify_eq; done.
Qed.

Section Claims.
Context `{Pydantic} `{Logging}.
Variable sp : Spotify.

(** C4: every response the handler returns, on whichever path, has as
    [total] the length of its [results]; and the response is determined by
    the [items] entry of the section alone, so that no other entry of the
    payload, such as a count supplied by the provider, finds its way into
    it. *)
Theorem total_is_number_of_returned_items query type limit w :
  (forall r, (search sp query type limit w).1 = Ok r ->
             total r = Z.of_nat (length (results r)))
  /\ (forall (sp' : Spotify) d d' sec sec',
        sp (search_call query type limit) = Ok (PDict d) ->
        sp' (search_call query type limit) = Ok (PDict d') ->
        d !! result_key_of type = Some (PDict sec) ->
        d' !! result_key_of type = Some (PDict sec') ->
        sec !! "items" = sec' !! "items" ->
        (search sp query type limit w).1 = (search sp' query type limit w).1).
Proof.
  split.
  - intros r. apply search_total.
  - intros sp' d d' sec sec' Hsp Hsp' Hk Hk' Hi.
    rewrite (search_section _ _ _ _ _ _ _ Hsp Hk).
    rewrite (search_section _ _ _ _ _ _ _ Hsp' Hk').
    by rewrite Hi.
Qed.

(** C5: when the provider returns nothing structured, or a payload without
    the section of the requested type, or a section whose [items] entry is
    absent or empty, the handler returns the empty response and the
    endpoint answers it with status 200. *)
Theorem empty_structure_gives_empty_result query type limit v w :
  sp (search_call query type limit) = Ok v ->
  anomalous (result_key_of type) v ->
  (search sp query type limit w).1 = Ok empty_response
  /\ forall raw_limit, convert_limit raw_limit = Some limit ->
       (get_search sp (Some query) (Some (value type)) raw_limit w).1
       = Ok {| status := 200; body := SearchBody empty_response |}.
Proof.
  intros Hsp Hv.
  assert (Hr : (search sp query type limit w).1 = Ok empty_response)
    by (by eapply search_anomalous).
  split; [ done | ].
  intros raw_limit Hl. by apply (get_search_valid_ok sp query type limit).
Qed.

(** C3: whatever integer [L] arrives as [limit], the limit of the provider
    call is [min(max(1, L), 50)]: 1 when [L] is below 1, 50 when [L] is
    above 50, [L] itself in between; it always lies in [1, 50]. *)
Theorem limit_is_clamped query type L w :
  call_limit <$> calls (search sp query type L w).2
    = (call_limit <$> calls w) ++ [Z.min (Z.max 1 L) 50]
  /\ Z.min (Z.max 1 L) 50 = clamp_limit L
  /\ 1 <= clamp_limit L <= 50.
Proof.
  split; [ | split ].
  - rewrite search_calls, fmap_app. done.
  - unfold clamp_limit. repeat case_match; lia.
  - unfold clamp_limit. repeat case_match; lia.
Qed.

(** C6: the query of the provider call is the request's query with every
    underscore replaced by a space and every other character left as it
    is, in particular of the same length; ["foo_bar_baz"] becomes
    ["foo bar baz"], and a query without underscores is passed on
    unchanged. *)
Theorem query_underscores_become_spaces query type limit w :
  call_q <$> calls (search sp query type limit w).2
    = (call_q <$> calls w) ++ [str_replace "_" " " query]
  /\ str_replace "_" " " query = underscores_to_spaces query
  /\ String.length (str_replace "_" " " query) = String.length query
  /\ str_replace "_" " " "foo_bar_baz" = "foo bar baz"
  /\ ((forall a, a ∈ String.list_ascii_of_string query -> a ≠ "_"%char) ->
      str_replace "_" " " query = query).
Proof.
  assert (Hspec : str_replace "_" " " query = underscores_to_spaces query)
    by apply replace_underscore_spec.
  repeat split.
  - rewrite search_calls, fmap_app. done.
  - done.
  - rewrite Hspec. apply underscores_to_spaces_length.
  - intros Hq. rewrite Hspec. by apply underscores_to_spaces_id.
Qed.

(** C7: a request whose [type] parameter is absent or is not exactly
    [track], [album] or [playlist] is answered with status 422, a client
    error, naming [type] among the failed parameters; the world is left as
    it was, so no provider call is made (and no log line written). *)
Theorem unknown_type_is_rejected raw_query raw_type raw_limit w :
  raw_type ≠ Some "track" ->
  raw_type ≠ Some "album" ->
  raw_type ≠ Some "playlist" ->
  exists fields,
    get_search sp raw_query raw_type raw_limit w
      = (Ok {| status := 422; body := ValidationErrors fields |}, w)
    /\ "type" ∈ fields
    /\ client_error 422
    /\ calls (get_search sp raw_query raw_type raw_limit w).2 = calls w.
Proof.
  intros Ht Ha Hp.
  assert (Hconv : convert_type raw_type = None).
  { destruct raw_type as [s|]; [ | done ]. simpl.
    destruct (SearchType_of_value s) as [t|] eqn:Hs; [ | done ].
    apply SearchType_of_value_Some in Hs. subst s. by destruct t. }
  unfold get_search. rewrite Hconv.
  exists (failed "query" (convert_query raw_query) ++ ["type"]
          ++ failed "limit" (convert_limit raw_limit)).
  assert (Hin : "type" ∈ failed "query" (convert_query raw_query) ++ ["type"]
          ++ failed "limit" (convert_limit raw_limit)) by set_solver.
  assert (Hce : client_error 422) by (unfold client_error; lia).
  destruct (convert_query raw_query), (convert_limit raw_limit); simpl; done.
Qed.

(** C8: on each of the three content types, the key the handler derives by
    appending [s] to the type's value is the key of the fixed table
    [{track: "tracks", album: "albums", playlist: "playlists"}]. *)
Theorem result_key_agrees_with_table type :
  result_key_of type = result_key_table type.
Proof. by destruct type. Qed.

(** C9: the answer to a request does not depend on the world the request
    is served in: served in two different worlds, or served a second time
    right after the first, the same request against the same provider gets
    the same answer.  A request leaves behind only the log lines and the
    record of the provider call it appends, and these too are the same
    whatever the world. *)
Theorem same_request_same_response raw_query raw_type raw_limit w1 w2 :
  (get_search sp raw_query raw_type raw_limit w1).1
    = (get_search sp raw_query raw_type raw_limit w2).1
  /\ (get_search sp raw_query raw_type raw_limit
       (get_search sp raw_query raw_type raw_limit w1).2).1
    = (get_search sp raw_query raw_type raw_limit w1).1
  /\ oblivious (get_search sp raw_query raw_type raw_limit)
  /\ (forall query type limit,
        (search sp query type limit w1).1 = (search sp query type limit w2).1
        /\ (search sp query type limit (search sp query type limit w1).2).1
           = (search sp query type limit w1).1
        /\ forall sp' : Spotify,
             sp' (search_call query type limit) = sp (search_call query type limit) ->
             (search sp' query type limit w2).1 = (search sp query type limit w1).1).
Proof.
  pose proof (oblivious_get_search sp raw_query raw_type raw_limit) as Hob.
  destruct (Hob) as (r & ls & cs & Hg).
  repeat split.
  - by rewrite !Hg.
  - by rewrite !Hg.
  - done.
  - destruct (oblivious_search sp query type limit) as (r' & ls' & cs' & Hs).
    by rewrite !Hs.
  - destruct (oblivious_search sp query type limit) as (r' & ls' & cs' & Hs).
    by rewrite !Hs.
  - intros sp' Heq. rewrite (search_reply_only sp sp') by done.
    destruct (oblivious_search sp query type limit) as (r' & ls' & cs' & Hs).
    by rewrite !Hs.
Qed.

End Claims.

(** C1: a provider failure whose text holds a brace is not turned into the
    empty response.  The provider raises [ConnectionError("{oops}")], an
    exception of the [Exception] hierarchy; the [except] clause catches it,
    its logging call formats the error line with the keyword argument it
    passes, a [KeyError] for the field [oops] is raised inside the clause,
    and the handler lets it through. *)
Theorem braced_failure_text_escapes `{Pydantic} query type limit w :
  (@search _ python_logging braced_failure query type limit w).1
  = Raise (KeyError "oops")
  /\ isinstance_Exception (ConnectionError "{oops}") = true
  /\ log (@search _ python_logging braced_failure query type limit w).2
     = log w ++ [(INFO, MsgSearching type query limit)].
Proof.
  split; [ | split; [ done | ] ].
  - by rewrite (search_raise braced_failure query type limit
                  (ConnectionError "{oops}") w).
  - unfold search, try_except_Exception, bind, logger_kwargs, logger,
      sp_search, lift, ret. done.
Qed.

(** ** Behaviour on concrete payloads *)

Section Payloads.
Context `{Pydantic} `{Logging}.

Lemma first_failure_record n u rest :
  first_failure (record n u :: rest)
  = match str_validator n, str_validator u with
    | Some _, Some _ => first_failure rest
    | _, _ => Some (n, u)
    end.
Proof.
  unfold record. cbn [first_failure].
  rewrite lookup_insert_eq, lookup_insert_ne, lookup_insert_eq; done.
Qed.

(** The example of the specification: a record without [uri] is skipped
    and the well-formed record beside it is returned. *)
Lemma missing_uri_is_skipped query limit w :
  (search (fun _ => Ok (tracks_payload [song_a; no_uri])) query track limit w).1
  = Ok {| results := [{| name := "Song A"; uri := "spotify:track:123" |}];
          total := 1 |}.
Proof.
  etrans; [ eapply search_clean; [ reflexivity | reflexivity | reflexivity | ] | done ].
  intros item Hin Hhas.
  apply elem_of_cons in Hin as [->|Hin]; [ by eexists | ].
  apply list_elem_of_singleton in Hin as ->. done.
Qed.

(** C2: the handler does not skip a record whose [name] is [None]: such a
    record passes the test of the loop body, and the response to
    [[song_a; null_name]] is empty, although [song_a] has a string under
    both keys. *)
Theorem null_name_discards_well_formed_items query limit w :
  (search (fun _ => Ok (tracks_payload [song_a; null_name])) query track limit w).1
  = Ok {| results := []; total := 0 |}
  /\ well_formed_item song_a
     = Some {| name := "Song A"; uri := "spotify:track:123" |}
  /\ has_name_and_uri null_name = true.
Proof.
  split; [ | done ].
  eapply (search_null _ _ _ _ _ _ [song_a; null_name]
            PNone (PStr "spotify:track:789"));
    [ reflexivity | reflexivity | reflexivity | | done | ].
  - unfold song_a, null_name.
    by rewrite !first_failure_record, !str_validator_str, str_validator_None.
  - by rewrite str_validator_str.
Qed.

(** C10: with a record whose [uri] is [None] between two well-formed
    records, the results are not the subsequence of the well-formed
    records: that subsequence is [Song A, Song B], the response is
    empty. *)
Theorem null_uri_loses_the_subsequence query limit w :
  (search (fun _ => Ok (tracks_payload [song_a; null_uri; song_b]))
          query track limit w).1
  = Ok {| results := []; total := 0 |}
  /\ omap well_formed_item [song_a; null_uri; song_b]
     = [{| name := "Song A"; uri := "spotify:track:123" |};
        {| name := "Song B"; uri := "spotify:track:456" |}].
Proof.
  split; [ | done ].
  eapply (search_null _ _ _ _ _ _ [song_a; null_uri; song_b]
            (PStr "Song D") PNone);
    [ reflexivity | reflexivity | reflexivity | | | done ].
  - unfold song_a, null_uri.
    by rewrite !first_failure_record, !str_validator_str, str_validator_None.
  - by rewrite str_validator_str.
Qed.

End Payloads.

(** ** The theorems at concrete requests *)

Lemma total_is_number_of_returned_items_witness :
  (search two_items_of_1000 "song" track 5 startup).1
  = (search two_items "song" track 5 startup).1.
Proof.
  eapply (proj2 (total_is_number_of_returned_items two_items_of_1000
                   "song" track 5 startup) two_items); reflexivity.
Defined.

Lemma empty_structure_witness :
  (search albums_only "song" track 5 startup).1 = Ok empty_response
  /\ forall raw_limit, convert_limit raw_limit = Some 5 ->
       (get_search albums_only (Some "song") (Some (value track)) raw_limit
          startup).1
       = Ok {| status := 200; body := SearchBody empty_response |}.
Proof.
  eapply (empty_structure_gives_empty_result albums_only "song" track 5);
    [ reflexivity | ].
  apply anomalous_missing_key. reflexivity.
Defined.

Lemma query_without_underscores_witness :
  str_replace "_" " " "abc" = "abc".
Proof.
  destruct (query_underscores_become_spaces unreachable "abc" track 5 startup)
    as (_ & _ & _ & _ & Hid).
  apply Hid. intros a Ha.
  repeat (apply elem_of_cons in Ha as [->|Ha]; [ done | ]).
  by apply elem_of_nil in Ha.
Defined.

Lemma unknown_type_witness :
  exists fields,
    get_search two_items (Some "song") (Some "artist") None startup
      = (Ok {| status := 422; body := ValidationErrors fields |}, startup)
    /\ "type" ∈ fields
    /\ client_error 422
    /\ calls (get_search two_items (Some "song") (Some "artist") None startup).2
       = calls startup.
Proof.
  apply (unknown_type_is_rejected two_items (Some "song") (Some "artist") None
           startup); done.
Defined.

Lemma same_request_witness :
  (search slow_elsewhere "song" track 5
     (search two_items_of_1000 "song" track 5 startup).2).1
  = (search two_items_of_1000 "song" track 5 startup).1.
Proof.
  destruct (same_request_same_response two_items_of_1000 None None None startup
              (search two_items_of_1000 "song" track 5 startup).2)
    as (_ & _ & _ & Hs).
  destruct (Hs "song" track 5) as (_ & _ & Hp).
  apply (Hp slow_elsewhere). reflexivity.
Defined.

(** ** Further properties of the handler *)

Lemma underscores_to_spaces_idempotent s :
  underscores_to_spaces (underscores_to_spaces s) = underscores_to_spaces s.
Proof.
  induction s as [|a s IH]; [done|]. simpl. rewrite IH. f_equal.
  unfold underscore_to_space. repeat case_bool_decide; congruence.
Qed.

Lemma underscores_to_spaces_free s a :
  a ∈ String.list_ascii_of_string (underscores_to_spaces s) -> a ≠ "_"%char.
Proof.
  induction s as [|b s IH]; simpl; intros Ha.
  - by apply elem_of_nil in Ha.
  - apply elem_of_cons in Ha as [->|Ha]; [ | by apply IH ].
    unfold underscore_to_space. case_bool_decide; congruence.
Qed.

Lemma search_call_normalised query type limit :
  search_call (str_replace "_" " " query) type (Z.min (Z.max 1 limit) 50)
  = search_call query type limit.
Proof.
  unfold search_call. f_equal.
  - change (str_replace "_" " ") with (replace_from "_" " " O).
    rewrite !replace_underscore_spec. apply underscores_to_spaces_idempotent.
  - lia.
Qed.

Section Further.
Context `{Pydantic} `{Logging}.

(** All records that have both keys pass validation exactly when there is
    no first one that fails. *)
Lemma all_validate_first_failure items :
  all_validate items = match first_failure items with
                       | None => true
                       | Some _ => false
                       end.
Proof.
  induction items as [|item rest IH]; [ done | ].
  cbn [all_validate forallb first_failure]. fold (all_validate rest).
  destruct item as [| | | | | |d]; cbn [has_name_and_uri item_output implb andb];
    try apply IH.
  destruct (d !! "name") as [n|]; [ | apply IH ].
  destruct (d !! "uri") as [u|]; [ | apply IH ].
  rewrite !bool_decide_eq_true_2 by eauto. cbn [andb implb].
  destruct (str_validator n) as [n'|];
    [ | by rewrite bool_decide_eq_false_2 by (by intros [? ?]) ].
  destruct (str_validator u) as [u'|];
    [ | by rewrite bool_decide_eq_false_2 by (by intros [? ?]) ].
  by rewrite bool_decide_eq_true_2 by eauto.
Qed.

Lemma item_output_has_name_and_uri item it :
  item_output item = Some it -> has_name_and_uri item = true.
Proof.
  destruct item as [| | | | | |d]; simpl; try done.
  destruct (d !! "name"), (d !! "uri"); done.
Qed.

Lemma omap_item_output_length items :
  (length (omap item_output items) <= length items)%nat.
Proof.
  induction items as [|item rest IH]; [ done | ].
  cbn [omap list_omap]. fold (omap item_output rest).
  destruct (item_output item); simpl; lia.
Qed.

Variable sp : Spotify.

(** Items that are not records pass through the loop without output. *)
Lemma no_records_no_output items :
  Forall (fun item => isinstance_dict item = false) items ->
  first_failure items = None /\ omap item_output items = [].
Proof.
  induction 1 as [|item rest Hitem _ [IHv IHo]]; [ done | ].
  destruct item; try done; simpl; by rewrite ?IHo.
Qed.

Lemma all_validate_count items :
  all_validate items = true ->
  length (omap item_output items) = length (List.filter has_name_and_uri items).
Proof.
  induction items as [|item rest IH]; [ done | ].
  cbn [all_validate forallb omap list_omap List.filter].
  fold (all_validate rest). fold (omap item_output rest).
  intros [Hitem Hrest]%andb_prop.
  destruct (has_name_and_uri item) eqn:Hhas.
  - simpl in Hitem. apply bool_decide_eq_true_1 in Hitem as [it Hit].
    rewrite Hit. simpl. by rewrite IH.
  - destruct (item_output item) as [it|] eqn:Hit; [ | by apply IH ].
    apply item_output_has_name_and_uri in Hit. congruence.
Qed.

(** The response is a function of the provider's reply and of the type: the
    query, the limit and the world enter it through the reply alone. *)
Lemma search_response_reply (sp' : Spotify) query query' type limit limit' w w' :
  sp' (search_call query' type limit') = sp (search_call query type limit) ->
  (search sp' query' type limit' w').1 = (search sp query type limit w).1.
Proof.
  intros Heq. open_search.
  fold (search_call query type limit). fold (search_call query' type limit').
  simpl. rewrite Heq.
  assert (Hexc : forall e (w1 w2 w3 w4 : World),
            (if isinstance_Exception e then handler e w1 else (Raise e, w2)).1
            = (if isinstance_Exception e then handler e w3 else (Raise e, w4)).1).
  { intros e w1 w2 w3 w4. destruct (isinstance_Exception e); [ | done ].
    by rewrite !Hhandler, !except_run_result. }
  destruct (sp _) as [v|e]; simpl; [ | apply Hexc ].
  destruct (truthy v); simpl; [ | done ].
  destruct (py_contains _ v) as [[]|e]; simpl; [ | done | apply Hexc ].
  destruct (py_getitem v _) as [section|e]; simpl; [ | apply Hexc ].
  destruct (py_get section _ _) as [items|e]; simpl; [ | apply Hexc ].
  destruct (truthy items); simpl; [ | done ].
  destruct (py_iter items) as [elements|e]; simpl; [ | apply Hexc ].
  repeat match goal with
         | |- context [for_item_in elements [] ?x] =>
             lazymatch x with
             | startup => fail
             | _ => rewrite (for_item_in_startup elements [] x)
             end
         end.
  destruct ((for_item_in elements [] startup).1) as [l|e]; simpl;
    [ done | apply Hexc ].
Qed.

(** The log a call of the handler leaves behind, path by path. *)
Lemma search_log query type limit w :
  let first_line := (INFO, MsgSearching type query limit) in
  let w' := (search sp query type limit w).2 in
  match (search sp query type limit w).1 with
  | Raise e => log w' = log w ++ [first_line]
  | Ok r =>
      exists line, log w' = log w ++ [first_line; line]
        /\ (results r <> [] -> line = (INFO, MsgFound (total r) (value type)))
        /\ (forall e, sp (search_call query type limit) = Raise e ->
              line = (ERROR, MsgError e))
        /\ (forall d, sp (search_call query type limit) = Ok (PDict d) ->
              d !! result_key_of type = None ->
              line = if bool_decide (d = ∅) then (WARNING, MsgNoResults)
                     else (ERROR, MsgMissingKey (result_key_of type)))
        /\ (forall d v, sp (search_call query type limit) = Ok (PDict d) ->
              d !! result_key_of type = Some v -> isinstance_dict v = false ->
              line = (ERROR, MsgError AttributeError))
  end.
Proof.
  intros first_line w'. subst first_line w'.
  unfold search, try_except_Exception, bind, logger_kwargs, logger, sp_search,
    lift, ret.
  fold (search_call query type limit). simpl.
  destruct (sp _) as [v|e] eqn:Hsp; simpl.
  2:{ destruct (isinstance_Exception e); simpl; [ | done ].
      destruct (format_message _); simpl; [ | done ].
      eexists. rewrite <- app_assoc. split; [ done | ].
      repeat split; try done. by intros ? [= <-]. }
  destruct (truthy v) eqn:Htruthy; simpl.
  2:{ eexists. rewrite <- app_assoc. split; [ done | ].
      repeat split; try done.
      - intros d [= ->] Hk. simpl in Htruthy.
        apply negb_false_iff in Htruthy. by rewrite Htruthy.
      - intros d x [= ->] Hk _. simpl in Htruthy.
        apply negb_false_iff, bool_decide_eq_true_1 in Htruthy. subst d.
        by rewrite lookup_empty in Hk. }
  destruct (py_contains _ v) as [[]|e] eqn:Hc; simpl.
  3:{ assert (e = TypeError) as -> by (destruct v; simpl in Hc; by simplify_eq).
      simpl. destruct (format_message _); simpl; [ | done ].
      eexists. rewrite <- app_assoc. split; [ done | ].
      repeat split; try done.
      - by intros d [= ->].
      - by intros d x [= ->]. }
  2:{ eexists. rewrite <- app_assoc. split; [ done | ].
      repeat split; try done.
      - intros d [= ->] Hk. simpl in Htruthy.
        apply negb_true_iff in Htruthy. by rewrite Htruthy.
      - intros d x [= ->] Hk _. simpl in Hc.
        injection Hc as Hc. apply bool_decide_eq_false_1 in Hc.
        exfalso. apply Hc. eauto. }
  destruct (py_getitem v _) as [section|e] eqn:Hg; simpl.
  2:{ assert (isinstance_Exception e = true) as ->.
      { destruct v; simpl in Hg; try by simplify_eq. case_match; by simplify_eq. }
      simpl. destruct (format_message _); simpl; [ | done ].
      eexists. rewrite <- app_assoc. split; [ done | ].
      repeat split; try done.
      - intros d [= ->] Hk. simpl in Hc. by rewrite Hk in Hc.
      - intros d x [= ->] Hk _. simpl in Hg. by rewrite Hk in Hg. }
  assert (Hkey : forall d, v = PDict d -> d !! result_key_of type = Some section).
  { intros d ->. simpl in Hg. by case_match; simplify_eq. }
  destruct (py_get section _ _) as [items|e] eqn:Hget; simpl.
  2:{ assert (e = AttributeError) as ->
        by (destruct section; simpl in Hget; by simplify_eq).
      simpl. destruct (format_message _); simpl; [ | done ].
      eexists. rewrite <- app_assoc. split; [ done | ].
      repeat split; try done.
      intros d [= ->] Hk. by rewrite (Hkey d eq_refl) in Hk. }
  assert (Hsection : forall d x, v = PDict d -> d !! result_key_of type = Some x ->
            isinstance_dict x = true).
  { intros d x Hv Hk. rewrite (Hkey d Hv) in Hk. injection Hk as <-.
    destruct section; simpl in Hget; by simplify_eq. }
  assert (Hrest : forall line : LogLevel * LogMsg,
            (forall e, @Ok PyVal v = Raise e -> line = (ERROR, MsgError e))
            /\ (forall d, Ok v = Ok (PDict d) -> d !! result_key_of type = None ->
                  line = if bool_decide (d = ∅) then (WARNING, MsgNoResults)
                         else (ERROR, MsgMissingKey (result_key_of type)))
            /\ (forall d x, Ok v = Ok (PDict d) ->
                  d !! result_key_of type = Some x -> isinstance_dict x = false ->
                  line = (ERROR, MsgError AttributeError))).
  { intros line. repeat split; try done.
    - intros d [= ->] Hk. by rewrite (Hkey d eq_refl) in Hk.
    - intros d x [= ->] Hk Hx. rewrite (Hsection d x eq_refl Hk) in Hx. done. }
  destruct (truthy items); simpl.
  2:{ eexists. rewrite <- app_assoc. split; [ done | ]. split; [ done | apply Hrest ]. }
  destruct (py_iter items) as [elements|e] eqn:Hiter; simpl.
  2:{ assert (e = TypeError) as ->
        by (destruct items; simpl in Hiter; by simplify_eq).
      simpl. destruct (format_message _); simpl; [ | done ].
      eexists. rewrite <- app_assoc. split; [ done | ].
      split; [ done | apply Hrest ]. }
  match goal with
  | |- context [for_item_in elements [] ?x] =>
      rewrite (for_item_in_startup elements [] x)
  end.
  destruct ((for_item_in elements [] startup).1) as [l|e] eqn:Hl; simpl.
  - eexists. rewrite <- app_assoc. split; [ done | ]. split; [ done | apply Hrest ].
  - apply for_item_in_raises in Hl as [text ->]. simpl.
    destruct (format_message _); simpl; [ | done ].
    eexists. rewrite <- app_assoc. split; [ done | ]. split; [ done | apply Hrest ].
Qed.

End Further.

Section HandlerProperties.
Context `{Pydantic} `{Logging}.
Variable sp : Spotify.

(** X1: every call of the handler, on whichever path it ends, issues exactly
    one provider call; that call carries the value of the requested type and
    the market [US]. *)
Theorem one_provider_call_per_request query type limit w :
  exists c,
    calls (search sp query type limit w).2 = calls w ++ [c]
    /\ call_type c = value type
    /\ call_market c = "US"
    /\ length (calls (search sp query type limit w).2) = S (length (calls w)).
Proof.
  exists (search_call query type limit).
  rewrite search_calls, length_app. simpl. repeat split. lia.
Qed.

(** X2: when the payload has the key of the requested type but the value
    under it is not a dictionary (for instance [null]), the handler returns
    the empty response and logs the attribute error. *)
Theorem section_not_a_record_gives_empty query type limit d v w :
  sp (search_call query type limit) = Ok (PDict d) ->
  d !! result_key_of type = Some v ->
  isinstance_dict v = false ->
  (search sp query type limit w).1 = Ok empty_response
  /\ last_line (search sp query type limit w).2
     = Some (ERROR, MsgError AttributeError).
Proof.
  intros Hsp Hk Hv.
  pose proof (search_log sp query type limit w) as Hlog. cbv zeta in Hlog.
  assert (Hr : (search sp query type limit w).1 = Ok empty_response).
  { pose proof except_result_AttributeError as Hcaught.
    unfold except_result in Hcaught.
    unfold search, try_except_Exception, bind, logger_kwargs, logger, sp_search,
      lift, ret.
    fold (search_call query type limit). simpl. rewrite Hsp. simpl.
    rewrite bool_decide_eq_false_2
      by (intros ->; by rewrite lookup_empty in Hk).
    simpl. rewrite Hk. simpl. rewrite ?bool_decide_eq_true_2 by eauto. simpl.
    destruct v; try done; simpl;
      by destruct (format_message (error_line AttributeError)). }
  split; [ done | ].
  rewrite Hr in Hlog. destruct Hlog as (line & Hl & _ & _ & _ & Hline).
  rewrite (Hline d v Hsp Hk Hv) in Hl.
  unfold last_line. rewrite Hl.
  change [(INFO, MsgSearching type query limit); (ERROR, MsgError AttributeError)]
    with ([(INFO, MsgSearching type query limit)] ++ [(ERROR, MsgError AttributeError)]).
  by rewrite app_assoc, last_snoc.
Qed.

(** X3: when the [items] entry of the section is anything but a list (a
    dictionary, a string, a number, a boolean, [null]), the handler returns
    the empty response. *)
Theorem items_not_a_list_gives_empty query type limit d sec v w :
  sp (search_call query type limit) = Ok (PDict d) ->
  d !! result_key_of type = Some (PDict sec) ->
  sec !! "items" = Some v ->
  (forall l, v <> PList l) ->
  (search sp query type limit w).1 = Ok empty_response.
Proof.
  intros Hsp Hk Hi Hv.
  rewrite (search_section _ _ _ _ _ _ _ Hsp Hk), Hi.
  cbv zeta. unfold default, id.
  destruct (truthy v) eqn:Htruthy; [ | done ].
  destruct v as [| | | |s|l|d']; try done.
  - cbn [py_iter]. rewrite for_item_in_first_failure.
    destruct (no_records_no_output
                ((fun a => PStr (String a EmptyString))
                   <$> String.list_ascii_of_string s)) as [-> ->]; [ | done ].
    by apply Forall_fmap, Forall_true.
  - by destruct (Hv l).
  - cbn [py_iter]. rewrite for_item_in_first_failure.
    destruct (no_records_no_output (PStr <$> (map_to_list d').*1))
      as [-> ->]; [ | done ].
    by apply Forall_fmap, Forall_true.
Qed.

(** X4: the handler returns no more results than the provider's list has
    items, [total] lies between 0 and the length of that list, and every
    result is the output of an item of the list that has both keys. *)
Theorem results_come_from_items query type limit d sec items w r :
  sp (search_call query type limit) = Ok (PDict d) ->
  d !! result_key_of type = Some (PDict sec) ->
  sec !! "items" = Some (PList items) ->
  (search sp query type limit w).1 = Ok r ->
  (length (results r) <= length items)%nat
  /\ 0 <= total r <= Z.of_nat (length items)
  /\ forall it, it ∈ results r ->
       exists item, item ∈ items /\ has_name_and_uri item = true
                    /\ item_output item = Some it.
Proof.
  intros Hsp Hk Hi Hr.
  rewrite (search_item_list _ _ _ _ _ _ _ _ Hsp Hk Hi) in Hr.
  pose proof (omap_item_output_length items) as Hlen.
  destruct (first_failure items) as [[n u]|].
  - unfold except_result in Hr.
    destruct (format_message _); [ | done ]. injection Hr as <-. simpl.
    repeat split; try lia. intros it Hit. by apply elem_of_nil in Hit.
  - injection Hr as <-. simpl. repeat split; try lia.
    intros it (item & Hin & Hit)%list_elem_of_omap.
    exists item. repeat split; try done.
    by eapply item_output_has_name_and_uri.
Qed.

(** X5: the response to a list of items is never partial.  When every
    record that has both keys passes validation, the results are the outputs
    of these records in the order of the list, one for each of them.  When
    one of them fails, the [except] clause takes over with the validation
    error of the first that fails: the response is empty when the error
    line formats, and otherwise what the formatting raises leaves the
    handler. *)
Theorem response_is_all_or_nothing query type limit d sec items w :
  sp (search_call query type limit) = Ok (PDict d) ->
  d !! result_key_of type = Some (PDict sec) ->
  sec !! "items" = Some (PList items) ->
  (all_validate items = true
   /\ (search sp query type limit w).1
      = Ok {| results := omap item_output items;
              total := Z.of_nat (length (omap item_output items)) |}
   /\ length (omap item_output items)
      = length (List.filter has_name_and_uri items))
  \/ (all_validate items = false
      /\ exists n u,
           first_failure items = Some (n, u)
           /\ match format_message
                       (error_line (ValidationError (validation_error_text n u)))
              with
              | Ok _ => (search sp query type limit w).1 = Ok empty_response
              | Raise e => (search sp query type limit w).1 = Raise e
              end).
Proof.
  intros Hsp Hk Hi.
  rewrite (search_item_list _ _ _ _ _ _ _ _ Hsp Hk Hi).
  pose proof (all_validate_first_failure items) as Hall.
  pose proof (all_validate_count items) as Hcount.
  destruct (first_failure items) as [[n u]|]; [ right | left ].
  - split; [ done | ]. exists n, u. split; [ done | ].
    unfold except_result. by destruct (format_message _).
  - repeat split; auto.
Qed.

(** X6: the response depends on the request only through the provider's
    reply and the type: two requests of the same type to which the providers
    give the same reply get the same response, whatever their queries, their
    limits and the worlds they are served in. *)
Theorem response_depends_on_reply_only
    (sp' : Spotify) query query' type limit limit' w w' :
  sp' (search_call query' type limit') = sp (search_call query type limit) ->
  (search sp' query' type limit' w').1 = (search sp query type limit w).1.
Proof. apply search_response_reply. Qed.

(** X7: a call of the handler that returns a response has written exactly
    two log lines, the first of them the [INFO] line with the type, the query
    and the limit as they came in, before cleaning and bounding; a call that
    lets an interpreter signal through has written that first line only. *)
Theorem two_log_lines_per_response query type limit w :
  (forall r, (search sp query type limit w).1 = Ok r ->
     exists line,
       log (search sp query type limit w).2
       = log w ++ [(INFO, MsgSearching type query limit); line])
  /\ (forall e, (search sp query type limit w).1 = Raise e ->
        log (search sp query type limit w).2
        = log w ++ [(INFO, MsgSearching type query limit)]).
Proof.
  pose proof (search_log sp query type limit w) as Hlog. cbv zeta in Hlog.
  split.
  - intros r Hr. rewrite Hr in Hlog. destruct Hlog as (line & Hl & _). eauto.
  - intros e He. by rewrite He in Hlog.
Qed.

(** X8: what the [except] clause does with a provider failure of the
    [Exception] hierarchy depends on whether the error line formats.  When
    it does, as it always does for a failure text without braces, the
    handler returns the empty response and the failure is logged at level
    [ERROR] with the exception, right after the line that announces the
    search.  When it does not, what the formatting raises leaves the
    handler and the log holds the announcing line only. *)
Theorem provider_failure_is_logged query type limit e w :
  isinstance_Exception e = true ->
  sp (search_call query type limit) = Raise e ->
  match format_message (error_line e) with
  | Ok _ =>
      (search sp query type limit w).1 = Ok empty_response
      /\ log (search sp query type limit w).2
         = log w ++ [(INFO, MsgSearching type query limit); (ERROR, MsgError e)]
  | Raise e' =>
      (search sp query type limit w).1 = Raise e'
      /\ log (search sp query type limit w).2
         = log w ++ [(INFO, MsgSearching type query limit)]
  end
  /\ (brace_free (str_exn e) = true ->
      (search sp query type limit w).1 = Ok empty_response
      /\ log (search sp query type limit w).2
         = log w ++ [(INFO, MsgSearching type query limit); (ERROR, MsgError e)]).
Proof.
  intros He Hsp.
  pose proof (search_log sp query type limit w) as Hlog. cbv zeta in Hlog.
  pose proof (search_raise sp query type limit e w Hsp) as Hr.
  rewrite He in Hr. rewrite Hr in Hlog.
  assert (Hfirst :
    match format_message (error_line e) with
    | Ok _ =>
        (search sp query type limit w).1 = Ok empty_response
        /\ log (search sp query type limit w).2
           = log w ++ [(INFO, MsgSearching type query limit); (ERROR, MsgError e)]
    | Raise e' =>
        (search sp query type limit w).1 = Raise e'
        /\ log (search sp query type limit w).2
           = log w ++ [(INFO, MsgSearching type query limit)]
    end).
  { rewrite Hr. unfold except_result in *.
    destruct (format_message (error_line e)); [ | done ].
    destruct Hlog as (line & Hl & _ & Hline & _).
    by rewrite (Hline e Hsp) in Hl. }
  split; [ done | ].
  intros Hplain. unfold error_line in Hfirst.
  rewrite format_message_plain in Hfirst; [ done | ].
  by rewrite brace_free_app, Hplain.
Qed.

(** X9: a dictionary payload without the key of the requested type is logged
    at level [ERROR] with the missing key, which is the key of the fixed
    table; the empty dictionary is instead logged at level [WARNING] as no
    results. *)
Theorem missing_key_is_logged query type limit d w :
  sp (search_call query type limit) = Ok (PDict d) ->
  d !! result_key_of type = None ->
  log (search sp query type limit w).2
  = log w ++ [(INFO, MsgSearching type query limit);
              if bool_decide (d = ∅) then (WARNING, MsgNoResults)
              else (ERROR, MsgMissingKey (result_key_table type))].
Proof.
  intros Hsp Hk.
  pose proof (search_log sp query type limit w) as Hlog. cbv zeta in Hlog.
  rewrite (search_anomalous _ _ _ _ _ _ Hsp (anomalous_missing_key _ _ Hk)) in Hlog.
  destruct Hlog as (line & Hl & _ & _ & Hline & _).
  rewrite (Hline d Hsp Hk) in Hl. rewrite Hl.
  by destruct type.
Qed.

(** X10: whenever the handler returns a non-empty list of results, its last
    log line is the [INFO] line that reports the count, and the count it
    reports is the [total] of the response. *)
Theorem found_line_carries_total query type limit w r :
  (search sp query type limit w).1 = Ok r ->
  results r <> [] ->
  last_line (search sp query type limit w).2
  = Some (INFO, MsgFound (total r) (value type)).
Proof.
  intros Hr Hne.
  pose proof (search_log sp query type limit w) as Hlog. cbv zeta in Hlog.
  rewrite Hr in Hlog. destruct Hlog as (line & Hl & Hline & _).
  unfold last_line. rewrite Hl, (Hline Hne).
  change [(INFO, MsgSearching type query limit); (INFO, MsgFound (total r) (value type))]
    with ([(INFO, MsgSearching type query limit)]
            ++ [(INFO, MsgFound (total r) (value type))]).
  by rewrite app_assoc, last_snoc.
Qed.

End HandlerProperties.

(** ** Properties of the endpoint *)

Section EndpointProperties.
Context `{Pydantic} `{Logging}.
Variable sp : Spotify.


(** X13: a request without a [limit] parameter asks the provider for 5
    results. *)
Theorem default_limit_is_five query type w :
  call_limit <$> calls (get_search sp (Some query) (Some (value type)) None w).2
  = (call_limit <$> calls w) ++ [5].
Proof.
  rewrite (get_search_valid sp query type 5 None w) by done.
  pose proof (search_calls sp query type 5 w) as Hcalls.
  destruct (search sp query type 5 w) as [[r|e] w']; simpl in *;
    by rewrite Hcalls, fmap_app.
Qed.

End EndpointProperties.

(** ** Properties of the request normalisation *)

(** X15: the values of the three members of [SearchType] are distinct, and
    looking a member up by value is the inverse of taking its value: the
    value of a member finds that member and no other string does. *)
Theorem search_type_round_trip (t : SearchType) :
  SearchType_of_value (value t) = Some t
  /\ (forall s, SearchType_of_value s = Some t -> s = value t)
  /\ (forall t', value t = value t' -> t = t').
Proof.
  repeat split.
  - by destruct t.
  - intros s. apply SearchType_of_value_Some.
  - intros t'. by destruct t, t'.
Qed.

Section NormalisationProperties.
Context `{Pydantic} `{Logging}.
Variable sp : Spotify.

(** X16: the query of the provider call contains no underscore and has the
    length of the request's query; cleaning a cleaned query changes
    nothing. *)
Theorem provider_query_has_no_underscore query type limit w :
  (exists c,
     calls (search sp query type limit w).2 = calls w ++ [c]
     /\ (forall a, a ∈ String.list_ascii_of_string (call_q c) -> a ≠ "_"%char)
     /\ String.length (call_q c) = String.length query)
  /\ str_replace "_" " " (str_replace "_" " " query) = str_replace "_" " " query.
Proof.
  split.
  - exists (search_call query type limit). split; [ apply search_calls | ].
    unfold search_call. cbn [call_q].
    change (str_replace "_" " ") with (replace_from "_" " " O).
    rewrite replace_underscore_spec. split.
    + intros a. apply underscores_to_spaces_free.
    + apply underscores_to_spaces_length.
  - change (str_replace "_" " ") with (replace_from "_" " " O).
    rewrite !replace_underscore_spec. apply underscores_to_spaces_idempotent.
Qed.

(** X17: a request and its normalised form get the same response and cause
    the same provider call; in particular all limits from 50 on are
    equivalent to each other, and so are all limits up to 1. *)
Theorem normalised_request_is_equivalent query type limit w :
  (search sp (str_replace "_" " " query) type (Z.min (Z.max 1 limit) 50) w).1
  = (search sp query type limit w).1
  /\ calls (search sp (str_replace "_" " " query) type
              (Z.min (Z.max 1 limit) 50) w).2
     = calls (search sp query type limit w).2
  /\ (forall limit', 50 <= limit -> 50 <= limit' ->
        (search sp query type limit' w).1 = (search sp query type limit w).1)
  /\ (forall limit', limit <= 1 -> limit' <= 1 ->
        (search sp query type limit' w).1 = (search sp query type limit w).1).
Proof.
  repeat split.
  - apply search_response_reply. by rewrite search_call_normalised.
  - by rewrite !search_calls, search_call_normalised.
  - intros limit' Hl Hl'. apply search_response_reply.
    unfold search_call. do 2 f_equal. lia.
  - intros limit' Hl Hl'. apply search_response_reply.
    unfold search_call. do 2 f_equal. lia.
Qed.

End NormalisationProperties.

(** ** Properties of the module initialisation *)

Lemma os_getenv_unset environ var :
  truthy (os_getenv environ var) = false <-> unset environ var.
Proof.
  unfold os_getenv, unset. destruct (environ !! var) as [s|]; simpl.
  - rewrite negb_false_iff, bool_decide_eq_true. split.
    + intros ->. by right.
    + intros [?|[= ->]]; done.
  - split; [ by left | done ].
Qed.

Lemma os_getenv_set environ var :
  truthy (os_getenv environ var) = true <->
  exists s, environ !! var = Some s /\ s <> EmptyString.
Proof.
  unfold os_getenv. destruct (environ !! var) as [s|]; simpl.
  - rewrite negb_true_iff, bool_decide_eq_false. split.
    + intros Hs. by exists s.
    + by intros (s' & [= <-] & Hs).
  - split; [ done | by intros (s & ? & _) ].
Qed.

(** What loading the module does in each of the four cases. *)
Lemma load_module_cases environ :
  load_module environ
  = match truthy (os_getenv environ "CLIENT_ID"),
          truthy (os_getenv environ "CLIENT_SECRET") with
    | true, true =>
        ClientBuilt (os_getenv environ "CLIENT_ID")
                    (os_getenv environ "CLIENT_SECRET")
    | false, true =>
        RuntimeError "Missing required environment variables: CLIENT_ID"
                     "Please set the following environment variables: CLIENT_ID"
    | true, false =>
        RuntimeError "Missing required environment variables: CLIENT_SECRET"
                     "Please set the following environment variables: CLIENT_SECRET"
    | false, false =>
        RuntimeError
          "Missing required environment variables: CLIENT_ID, CLIENT_SECRET"
          "Please set the following environment variables: CLIENT_ID, CLIENT_SECRET"
    end.
Proof.
  unfold load_module, missing_vars, required_env_vars. cbn [List.filter].
  by destruct (truthy (os_getenv environ "CLIENT_ID")),
              (truthy (os_getenv environ "CLIENT_SECRET")).
Qed.

(** X18: loading the module builds the client exactly when [CLIENT_ID] and
    [CLIENT_SECRET] are both set to non-empty strings, and then the client
    is built from these two strings. *)
Theorem module_loads_iff_credentials_set environ client_id client_secret :
  load_module environ = ClientBuilt client_id client_secret <->
  exists a b,
    environ !! "CLIENT_ID" = Some a /\ a <> EmptyString
    /\ environ !! "CLIENT_SECRET" = Some b /\ b <> EmptyString
    /\ client_id = PStr a /\ client_secret = PStr b.
Proof.
  rewrite load_module_cases. split.
  - destruct (truthy (os_getenv environ "CLIENT_ID")) eqn:Hid; [ | by case_match ].
    destruct (truthy (os_getenv environ "CLIENT_SECRET")) eqn:Hsec; [ | done ].
    apply os_getenv_set in Hid as (a & Ha & Hane).
    apply os_getenv_set in Hsec as (b & Hb & Hbne).
    unfold os_getenv. rewrite Ha, Hb. intros [= <- <-]. by exists a, b.
  - intros (a & b & Ha & Hane & Hb & Hbne & -> & ->).
    rewrite (proj2 (os_getenv_set environ "CLIENT_ID")) by eauto.
    rewrite (proj2 (os_getenv_set environ "CLIENT_SECRET")) by eauto.
    unfold os_getenv. by rewrite Ha, Hb.
Qed.

(** X19: when a required variable is not set, or is set to the empty string,
    loading the module raises the [RuntimeError], having logged an error
    line first; both messages end with the same list of names, which are
    the variables that are unset, in the order [CLIENT_ID],
    [CLIENT_SECRET], separated by a comma and a space. *)
Theorem missing_variables_are_named environ :
  unset environ "CLIENT_ID" \/ unset environ "CLIENT_SECRET" ->
  exists names,
    load_module environ
    = RuntimeError ("Missing required environment variables: " +:+ names)
                   ("Please set the following environment variables: " +:+ names)
    /\ (unset environ "CLIENT_ID" -> ~ unset environ "CLIENT_SECRET" ->
          names = "CLIENT_ID")
    /\ (~ unset environ "CLIENT_ID" -> unset environ "CLIENT_SECRET" ->
          names = "CLIENT_SECRET")
    /\ (unset environ "CLIENT_ID" -> unset environ "CLIENT_SECRET" ->
          names = "CLIENT_ID, CLIENT_SECRET").
Proof.
  intros Hunset. rewrite load_module_cases.
  rewrite <- !os_getenv_unset in Hunset.
  destruct (truthy (os_getenv environ "CLIENT_ID")) eqn:Hid,
           (truthy (os_getenv environ "CLIENT_SECRET")) eqn:Hsec.
  - by destruct Hunset.
  - exists "CLIENT_SECRET". repeat split; try done;
      intros H1 H2; rewrite <- ?os_getenv_unset in H1, H2; congruence.
  - exists "CLIENT_ID". repeat split; try done;
      intros H1 H2; rewrite <- ?os_getenv_unset in H1, H2; congruence.
  - exists "CLIENT_ID, CLIENT_SECRET". repeat split; try done;
      intros H1 H2; rewrite <- ?os_getenv_unset in H1, H2; congruence.
Qed.

(** X20: loading the module reads the environment at [CLIENT_ID] and
    [CLIENT_SECRET] only: two environments that agree on these two variables
    load alike, so setting or removing any other variable changes
    nothing. *)
Theorem other_variables_do_not_matter environ environ' :
  environ !! "CLIENT_ID" = environ' !! "CLIENT_ID" ->
  environ !! "CLIENT_SECRET" = environ' !! "CLIENT_SECRET" ->
  load_module environ = load_module environ'
  /\ forall key v, key <> "CLIENT_ID" -> key <> "CLIENT_SECRET" ->
       load_module (<[key := v]> environ) = load_module environ'
       /\ load_module (delete key environ) = load_module environ'.
Proof.
  intros Hid Hsec.
  assert (Hagree : forall e1 e2 : gmap string string,
            e1 !! "CLIENT_ID" = e2 !! "CLIENT_ID" ->
            e1 !! "CLIENT_SECRET" = e2 !! "CLIENT_SECRET" ->
            load_module e1 = load_module e2).
  { intros e1 e2 H1 H2. rewrite !load_module_cases. unfold os_getenv.
    by rewrite H1, H2. }
  split; [ by apply Hagree | ].
  intros key v Hk1 Hk2. split; apply Hagree.
  - by rewrite lookup_insert_ne.
  - by rewrite lookup_insert_ne.
  - by rewrite lookup_delete_ne.
  - by rewrite lookup_delete_ne.
Qed.

(** ** The further properties at concrete requests and environments *)

Lemma section_not_a_record_witness :
  (search null_section "song" track 5 startup).1 = Ok empty_response
  /\ last_line (search null_section "song" track 5 startup).2
     = Some (ERROR, MsgError AttributeError).
Proof.
  apply (section_not_a_record_gives_empty null_section "song" track 5
           {[ "tracks" := PNone ]} PNone startup); reflexivity.
Defined.

Lemma items_not_a_list_witness :
  (search items_as_text "song" track 5 startup).1 = Ok empty_response.
Proof.
  apply (items_not_a_list_gives_empty items_as_text "song" track 5
           {[ "tracks" := PDict {[ "items" := PStr "none" ]} ]}
           {[ "items" := PStr "none" ]} (PStr "none") startup);
    [ reflexivity | reflexivity | reflexivity | done ].
Defined.

Lemma results_come_from_items_witness :
  (length (results song_a_alone) <= length [song_a; no_uri])%nat
  /\ 0 <= total song_a_alone <= Z.of_nat (length [song_a; no_uri])
  /\ forall it, it ∈ results song_a_alone ->
       exists item, item ∈ [song_a; no_uri] /\ has_name_and_uri item = true
                    /\ item_output item = Some it.
Proof.
  apply (results_come_from_items two_items "song" track 5
           {[ "tracks" := PDict {[ "items" := PList [song_a; no_uri] ]} ]}
           {[ "items" := PList [song_a; no_uri] ]} [song_a; no_uri] startup);
    reflexivity.
Defined.

Lemma response_is_all_or_nothing_witness :
  (all_validate [song_a; no_uri] = true
   /\ (search two_items "song" track 5 startup).1
      = Ok {| results := omap item_output [song_a; no_uri];
              total := Z.of_nat (length (omap item_output [song_a; no_uri])) |}
   /\ length (omap item_output [song_a; no_uri])
      = length (List.filter has_name_and_uri [song_a; no_uri]))
  \/ (all_validate [song_a; no_uri] = false
      /\ exists n u,
           first_failure [song_a; no_uri] = Some (n, u)
           /\ match format_message
                       (error_line (ValidationError (validation_error_text n u)))
              with
              | Ok _ => (search two_items "song" track 5 startup).1
                        = Ok empty_response
              | Raise e => (search two_items "song" track 5 startup).1 = Raise e
              end).
Proof.
  apply (response_is_all_or_nothing two_items "song" track 5
           {[ "tracks" := PDict {[ "items" := PList [song_a; no_uri] ]} ]}
           {[ "items" := PList [song_a; no_uri] ]} [song_a; no_uri] startup);
    reflexivity.
Defined.

Lemma response_depends_on_reply_witness :
  (search slow_elsewhere "song" track 7
     (search two_items "song" track 5 startup).2).1
  = (search two_items_of_1000 "a_b" track 1000 startup).1.
Proof.
  apply (response_depends_on_reply_only two_items_of_1000 slow_elsewhere).
  reflexivity.
Defined.

Lemma two_log_lines_witness :
  exists line,
    log (search two_items "song" track 5 startup).2
    = log startup ++ [(INFO, MsgSearching track "song" 5); line].
Proof.
  apply (proj1 (two_log_lines_per_response two_items "song" track 5 startup)
           song_a_alone).
  reflexivity.
Defined.

Lemma provider_failure_is_logged_witness :
  ((search braced_failure "song" track 5 startup).1 = Raise (KeyError "oops")
   /\ log (search braced_failure "song" track 5 startup).2
      = log startup ++ [(INFO, MsgSearching track "song" 5)])
  /\ (brace_free (str_exn (ConnectionError "{oops}")) = true ->
      (search braced_failure "song" track 5 startup).1 = Ok empty_response
      /\ log (search braced_failure "song" track 5 startup).2
         = log startup ++ [(INFO, MsgSearching track "song" 5);
                           (ERROR, MsgError (ConnectionError "{oops}"))]).
Proof.
  exact (provider_failure_is_logged braced_failure "song" track 5
           (ConnectionError "{oops}") startup eq_refl eq_refl).
Defined.

Lemma missing_key_is_logged_witness :
  log (search albums_only "song" track 5 startup).2
  = log startup
    ++ [(INFO, MsgSearching track "song" 5);
        if bool_decide
             (({[ "albums" := PDict {[ "items" := PList [song_a] ]} ]}
                 : gmap string PyVal) = ∅)
        then (WARNING, MsgNoResults)
        else (ERROR, MsgMissingKey (result_key_table track))].
Proof.
  apply (missing_key_is_logged albums_only "song" track 5
           {[ "albums" := PDict {[ "items" := PList [song_a] ]} ]} startup);
    reflexivity.
Defined.

Lemma found_line_witness :
  last_line (search two_items "song" track 5 startup).2
  = Some (INFO, MsgFound (total song_a_alone) (value track)).
Proof.
  apply (found_line_carries_total two_items "song" track 5 startup song_a_alone);
    [ reflexivity | done ].
Defined.


Lemma search_type_round_trip_witness : "album" = value album.
Proof.
  apply (proj1 (proj2 (search_type_round_trip album))). reflexivity.
Defined.

Lemma normalised_request_witness :
  (search two_items "song" track 1000 startup).1
  = (search two_items "song" track 50 startup).1.
Proof.
  destruct (normalised_request_is_equivalent two_items "song" track 50 startup)
    as (_ & _ & Hhigh & _).
  apply Hhigh; lia.
Defined.

Lemma missing_variables_witness :
  exists names,
    load_module empty_secret_environ
    = RuntimeError ("Missing required environment variables: " +:+ names)
                   ("Please set the following environment variables: " +:+ names)
    /\ (unset empty_secret_environ "CLIENT_ID" ->
        ~ unset empty_secret_environ "CLIENT_SECRET" -> names = "CLIENT_ID")
    /\ (~ unset empty_secret_environ "CLIENT_ID" ->
        unset empty_secret_environ "CLIENT_SECRET" -> names = "CLIENT_SECRET")
    /\ (unset empty_secret_environ "CLIENT_ID" ->
        unset empty_secret_environ "CLIENT_SECRET" ->
        names = "CLIENT_ID, CLIENT_SECRET").
Proof.
  apply (missing_variables_are_named empty_secret_environ).
  right. right. reflexivity.
Defined.

Lemma other_variables_witness :
  load_module (<["HOME" := "/root"]> full_environ) = load_module full_environ
  /\ forall key v, key <> "CLIENT_ID" -> key <> "CLIENT_SECRET" ->
       load_module (<[key := v]> (<["HOME" := "/root"]> full_environ))
       = load_module full_environ
       /\ load_module (delete key (<["HOME" := "/root"]> full_environ))
          = load_module full_environ.
Proof.
  apply (other_variables_do_not_matter (<["HOME" := "/root"]> full_environ)
           full_environ); reflexivity.
Defined.
